(** * Agentic invoice processor: shallow embedding and verified properties

    The development follows the Python sources module by module:
    - [PyStr]              the [str] built-ins the code relies on;
    - [ClientCaseMatcher]  clientcase_matcher.py;
    - [RegexTools]         regex_tools.py ([_parse_amounts]);
    - [LlmModels]          the result schemas the other modules manipulate;
    - [Utils]              utils.py (correction map, allow-list);
    - [Agents]             capstone_agents.py (retry wrapper, orchestrator);
    - [Preprocessor]       universal_invoice_processor.py (gatekeeper).

    Text is modelled as [string], one [ascii] per code point, which covers
    ASCII input exactly: [upper] maps a-z to A-Z and [strip] removes the
    ASCII characters for which Python's [str.isspace] holds. *)

From Stdlib Require Import String Ascii List ZArith QArith Lia Bool.
From stdpp Require Import base option list gmap sets strings sorting.

Set Warnings "-clear-no-such-hyp".

Open Scope Z_scope.

(** ** Python string built-ins *)
Module PyStr.

(** [str.isspace] on ASCII: TAB, LF, VT, FF, CR, FS, GS, RS, US, SPACE. *)
Definition isspace (a : ascii) : bool :=
  let n := nat_of_ascii a in
  ((9 <=? n)%nat && (n <=? 13)%nat) || ((28 <=? n)%nat && (n <=? 32)%nat).

(** [str.upper] and [str.lower], character by character, on ASCII: the
    letters a-z and A-Z are mapped, every other character is left as it
    is. *)
Definition upper_char (a : ascii) : ascii :=
  let n := nat_of_ascii a in
  if ((97 <=? n)%nat && (n <=? 122)%nat)%bool then ascii_of_nat (n - 32) else a.

Definition lower_char (a : ascii) : ascii :=
  let n := nat_of_ascii a in
  if ((65 <=? n)%nat && (n <=? 90)%nat)%bool then ascii_of_nat (n + 32) else a.

(** [list(s)] and ["".join(chars)]. *)
Definition chars (s : string) : list ascii := list_ascii_of_string s.
Definition join (l : list ascii) : string := string_of_list_ascii l.

Fixpoint lstrip_chars (l : list ascii) : list ascii :=
  match l with
  | a :: l' => if isspace a then lstrip_chars l' else l
  | [] => []
  end.

Definition strip_chars (l : list ascii) : list ascii :=
  reverse (lstrip_chars (reverse (lstrip_chars l))).

Definition strip (s : string) : string := join (strip_chars (chars s)).
Definition upper (s : string) : string := join (map upper_char (chars s)).
Definition lower (s : string) : string := join (map lower_char (chars s)).
Definition len (s : string) : nat := String.length s.

(** [c in s] for a one-character needle. *)
Definition contains_char (c : ascii) (s : string) : bool :=
  existsb (Ascii.eqb c) (chars s).

(** [needle in s] for a string needle. *)
Fixpoint contains (needle s : string) : bool :=
  String.prefix needle s ||
  match s with
  | EmptyString => false
  | String _ s' => contains needle s'
  end.

(** [s.replace(old, new)] for a one-character [old]; [new] is a string so
    that deletion is [replace_char c ""]. *)
Fixpoint replace_char (old : ascii) (new : string) (s : string) : string :=
  match s with
  | EmptyString => EmptyString
  | String a s' =>
      if Ascii.eqb a old then new +:+ replace_char old new s'
      else String a (replace_char old new s')
  end.

(** [s.rindex(c)]: the largest index at which [c] occurs ([None] where
    Python raises [ValueError]). *)
Fixpoint rindex_from (c : ascii) (s : string) (i : nat) (acc : option nat) : option nat :=
  match s with
  | EmptyString => acc
  | String a s' => rindex_from c s' (S i) (if Ascii.eqb a c then Some i else acc)
  end.
Definition rindex (c : ascii) (s : string) : option nat := rindex_from c s 0%nat None.

(** [s.split(c)] for a one-character separator. *)
Fixpoint split_go (c : ascii) (cur : list ascii) (s : string) : list string :=
  match s with
  | EmptyString => [join (rev cur)]
  | String a s' =>
      if Ascii.eqb a c then join (rev cur) :: split_go c [] s'
      else split_go c (a :: cur) s'
  end.
Definition split (c : ascii) (s : string) : list string := split_go c [] s.

(** Truthiness of a [str]. *)
Definition truthy (s : string) : bool := negb (String.eqb s "").

End PyStr.

(** ** clientcase_matcher.py *)
Module ClientCaseMatcher.

Inductive MatchStatus := exact | fuzzy_io_swap | ambiguous_io_swap | unknown.
Inductive Contamination := none | I_only | O_only | I_and_O.

(** [match_confidence] takes the values 0, 0.3, 0.75 and 1.0. *)
Record MatchResult := {
  original_code : string;
  matched_code : option string;
  match_status : MatchStatus;
  match_confidence : Q;
  contamination : Contamination;
  candidates : list string;
  notes : option string
}.

Record t := {
  valid_codes : gset string;
  index_by_canon : gmap string (list string)
}.

(** One step of the loop over [letter_positions]. *)
Definition swap_at (chars : list ascii) (pos : nat) : list ascii :=
  if (pos <? length chars)%nat then
    match chars !! pos with
    | Some "I"%char => <[pos := "1"%char]> chars
    | Some "O"%char => <[pos := "0"%char]> chars
    | _ => chars
    end
  else chars.

Definition letter_positions : list nat := [0; 1; 5]%nat.

Definition canonical_case_number (code : string) : string :=
  let c := PyStr.upper (PyStr.strip code) in
  if (PyStr.len c <? 11)%nat then c
  else PyStr.join (foldl swap_at (PyStr.chars c) letter_positions).

Definition contamination_flag (code : string) : Contamination :=
  let c := PyStr.upper code in
  let has_i := PyStr.contains_char "I" c in
  let has_o := PyStr.contains_char "O" c in
  if negb has_i && negb has_o then none
  else if has_i && has_o then I_and_O
  else if has_i then I_only
  else O_only.

(** The CSV reader hands over, per data row, the cell of the chosen column
    ([row.get(col) or ""]). *)
Definition add_row (m : t) (cell : string) : t :=
  let code := PyStr.strip cell in
  if negb (PyStr.truthy code) then m
  else
    let canon := canonical_case_number code in
    {| valid_codes := {[ code ]} ∪ valid_codes m;
       index_by_canon :=
         <[ canon := default [] (index_by_canon m !! canon) ++ [code] ]>
           (index_by_canon m) |}.

Definition empty_index : t := {| valid_codes := ∅; index_by_canon := ∅ |}.

Definition load_rows (cells : list string) : t := foldl add_row empty_index cells.

Definition match_ (m : t) (code : string) : MatchResult :=
  let original := PyStr.strip code in
  if negb (PyStr.truthy original) then
    {| original_code := original; matched_code := None;
       match_status := unknown; match_confidence := 0%Q;
       contamination := none; candidates := [];
       notes := Some "Empty or whitespace-only clientCaseNumber" |}
  else if decide (original ∈ valid_codes m) then
    {| original_code := original; matched_code := Some original;
       match_status := exact; match_confidence := 1%Q;
       contamination := contamination_flag original;
       candidates := [original]; notes := None |}
  else
    let canon := canonical_case_number original in
    match default [] (index_by_canon m !! canon) with
    | [] =>
        {| original_code := original; matched_code := None;
           match_status := unknown; match_confidence := 0%Q;
           contamination := contamination_flag original;
           candidates := [];
           notes := Some "clientCaseNumber is not registered" |}
    | [matched] =>
        {| original_code := original; matched_code := Some matched;
           match_status := fuzzy_io_swap; match_confidence := (3 # 4)%Q;
           contamination := contamination_flag matched;
           candidates := [matched];
           notes := Some "Matched via I/1 or O/0 canonical mapping" |}
    | cands =>
        {| original_code := original; matched_code := None;
           match_status := ambiguous_io_swap; match_confidence := (3 # 10)%Q;
           contamination := none;
           candidates := cands;
           notes := Some "Multiple possible matches for canonical form" |}
    end.

End ClientCaseMatcher.

(** ** regex_tools.py: amount parsing *)
Module RegexTools.

Definition digit_value (a : ascii) : option Z :=
  let n := nat_of_ascii a in
  if ((48 <=? n)%nat && (n <=? 57)%nat)%bool then Some (Z.of_nat (n - 48)) else None.

(** Value of a run of decimal digits ([None] on any other character);
    the empty run has value 0. *)
Fixpoint digits_value (acc : Z) (l : list ascii) : option Z :=
  match l with
  | [] => Some acc
  | a :: l' =>
      match digit_value a with
      | Some d => digits_value (10 * acc + d) l'
      | None => None
      end
  end.

(** The body of the [try] block up to the call of [float]: the separators
    of one captured amount are resolved.  [None] stands for an exception
    ([rindex] of an absent character, [split(',')[1]] out of range). *)
Definition clean_amount (amount : string) : option string :=
  let clean := PyStr.replace_char " " "" amount in
  if PyStr.contains_char "," clean && PyStr.contains_char "." clean then
    rc ← PyStr.rindex "," clean;
    rd ← PyStr.rindex "." clean;
    if (rd <? rc)%nat
    then Some (PyStr.replace_char "," "." (PyStr.replace_char "." "" clean))
    else Some (PyStr.replace_char "," "" clean)
  else if PyStr.contains_char "," clean then
    frac ← PyStr.split "," clean !! 1%nat;
    if (PyStr.len frac =? 2)%nat
    then Some (PyStr.replace_char "," "." clean)
    else Some (PyStr.replace_char "," "" clean)
  else Some clean.

Section ParseAmounts.
Context {F : Type}.

(** The built-in [float] on a string, [None] where it raises [ValueError],
    and the equality of two of its results as the keys of a [dict] have it.
    The conversion to a double is the interpreter's, not the program's:
    the parser is written over any such pair. *)
Variable float : string → option F.
Variable float_eqb : F → F → bool.

(** One pass of the loop body: [clean] is computed and converted; [None]
    is the [except: continue]. *)
Definition parse_amount (amount : string) : option F :=
  clean ← clean_amount amount; float clean.

(** [list(dict.fromkeys(parsed))]: first occurrences, in order. *)
Fixpoint dedupe (seen : list F) (l : list F) : list F :=
  match l with
  | [] => []
  | x :: l' =>
      if existsb (float_eqb x) seen then dedupe seen l'
      else x :: dedupe (x :: seen) l'
  end.

Definition _parse_amounts (matches : list string) : list F :=
  let parsed :=
    foldl (fun parsed amount =>
             if negb (PyStr.truthy amount) then parsed
             else match parse_amount amount with
                  | Some v => parsed ++ [v]
                  | None => parsed
                  end) [] matches in
  dedupe [] parsed.

End ParseAmounts.

(** A reading of [float] for the examples: the exact decimal value of a
    literal made of ASCII digits with at most one ['.'] and at least one
    digit, and [None] on every other string.  The amount patterns capture
    only digits, ['.'] and [','], so signs, exponents and blanks never
    reach the call.  Python rounds the value to the nearest double; the
    sample amounts are far from the places where two decimals round
    together. *)
Definition py_float (s : string) : option Q :=
  match PyStr.split "." s with
  | [int_part] =>
      if (PyStr.len int_part =? 0)%nat then None
      else n ← digits_value 0 (PyStr.chars int_part); Some (inject_Z n)
  | [int_part; frac_part] =>
      if ((PyStr.len int_part =? 0) && (PyStr.len frac_part =? 0))%nat then None
      else
        n ← digits_value 0 (PyStr.chars int_part);
        m ← digits_value 0 (PyStr.chars frac_part);
        let scale := 10 ^ Z.of_nat (PyStr.len frac_part) in
        Some (Qmake (n * scale + m) (Z.to_pos scale))
  | _ => None
  end.

End RegexTools.

(** ** Result schemas *)
Module LlmModels.

(** Modelled from the spec: [InvoiceHeader] of the absent module
    [llm_models], the header of the final record; each field is an optional
    string. *)
Record InvoiceHeader := {
  supplierName : option string;
  invoiceNumber : option string;
  invoiceDate : option string;
  kvkNumber : option string;
  vatNumber : option string
}.

(** Modelled from the spec: [ClientCase] of the absent module [llm_models],
    one row of [clientCases].  The validated code is kept nullable because
    the code under study tests it for truthiness; [durationHours] is an
    optional JSON number, kept as a rational. *)
Record ClientCase := {
  validatedClientCaseNumber : option string;
  rawClientCaseNumber : option string;
  date : option string;
  durationHours : option Q
}.

(** Modelled from the spec: [InvoiceLLMResult] of the absent module
    [llm_models], the final record. *)
Record InvoiceLLMResult := {
  invoiceHeader : InvoiceHeader;
  isCoachingInvoice : bool;
  clientCases : list ClientCase;
  clientCasesNoActivity : list string
}.

(** [InvoiceHeader()]: every field absent. *)
Definition empty_header : InvoiceHeader :=
  {| supplierName := None; invoiceNumber := None; invoiceDate := None;
     kvkNumber := None; vatNumber := None |}.

(** Truthiness of an optional string: [None] and [""] are falsy. *)
Definition truthy_opt (o : option string) : bool :=
  match o with
  | Some s => PyStr.truthy s
  | None => false
  end.

End LlmModels.

(** ** utils.py *)
Module Utils.
Import LlmModels.

(** [sorted(list(set(xs)))]. *)
Definition sorted_set (xs : list string) : list string :=
  merge_sort String.le (elements (list_to_set xs : gset string)).

Definition correct_case (correction_map : gmap string string) (case : ClientCase)
  : ClientCase :=
  match validatedClientCaseNumber case with
  | Some raw_code =>
      match correction_map !! raw_code with
      | Some corrected_code =>
          if negb (String.eqb raw_code corrected_code) then
            {| validatedClientCaseNumber := Some corrected_code;
               rawClientCaseNumber := Some raw_code;
               date := date case;
               durationHours := durationHours case |}
          else case
      | None => case
      end
  | None => case
  end.

Definition correct_code (correction_map : gmap string string) (code : string) : string :=
  match correction_map !! code with
  | Some corrected => corrected
  | None => code
  end.

Definition apply_client_case_corrections
    (result : InvoiceLLMResult) (correction_map : gmap string string)
  : InvoiceLLMResult :=
  {| invoiceHeader := invoiceHeader result;
     isCoachingInvoice := isCoachingInvoice result;
     clientCases := map (correct_case correction_map) (clientCases result);
     clientCasesNoActivity :=
       sorted_set (map (correct_code correction_map) (clientCasesNoActivity result)) |}.

(** [case.validatedClientCaseNumber in allowed_set]. *)
Definition case_allowed (allowed_set : gset string) (case : ClientCase) : bool :=
  match validatedClientCaseNumber case with
  | Some code => bool_decide (code ∈ allowed_set)
  | None => false
  end.

Definition enforce_allowed_client_cases
    (result : InvoiceLLMResult) (allowed : list string) : InvoiceLLMResult :=
  let allowed_set : gset string := list_to_set allowed in
  let filtered_active := List.filter (case_allowed allowed_set) (clientCases result) in
  let filtered_no_activity :=
    List.filter (fun code => bool_decide (code ∈ allowed_set))
                (clientCasesNoActivity result) in
  {| invoiceHeader := invoiceHeader result;
     isCoachingInvoice := isCoachingInvoice result;
     clientCases := filtered_active;
     clientCasesNoActivity := sorted_set filtered_no_activity |}.

End Utils.

(** ** capstone_agents.py *)
Module Agents.
Import LlmModels.

Record HeaderResult := {
  hr_invoiceHeader : InvoiceHeader;
  hr_isCoachingInvoice : bool
}.

Record LineItemsResult := {
  li_clientCases : list ClientCase;
  li_clientCasesNoActivity : list string
}.

(** *** The resilience wrapper [_run_agent] *)

(** What one call of the wrapper does to the outside world, in order. *)
Inductive Event :=
| Call (attempt : Z)          (* a runner is created and the agent is run *)
| Sleep (seconds : Z)         (* [asyncio.sleep(wait_time)] *)
| LogError (attempt : Z)      (* the non-transient error is printed *)
| LogGiveUp.                  (* "failed after max_retries retries" *)

Definition is_overload (e : string) : bool :=
  let error_msg := PyStr.lower e in
  PyStr.contains "503" error_msg || PyStr.contains "overloaded" error_msg
  || PyStr.contains "429" error_msg || PyStr.contains "unavailable" error_msg.

Section RunAgent.
Context {T : Type}.

(** The body of the [try] block at a given attempt (running the agent,
    taking the last message, stripping fences, validating against
    [result_type]): either a value, or an exception [e] given by
    [str(e)]. *)
Variable attempt_body : Z → string + T.

(** The iterations of [for attempt in range(max_retries + 1)] that are
    left, starting at [attempt]. *)
Fixpoint run_from (max_retries : Z) (remaining : nat) (attempt : Z)
  : option T * list Event :=
  match remaining with
  | O => (None, [LogGiveUp])
  | S remaining' =>
      match attempt_body attempt with
      | inr v => (Some v, [Call attempt])
      | inl e =>
          if is_overload e && (attempt <? max_retries) then
            let wait_time := 2 * 2 ^ attempt in
            let '(r, tr) := run_from max_retries remaining' (attempt + 1) in
            (r, Call attempt :: Sleep wait_time :: tr)
          else if negb (is_overload e) then
            (None, [Call attempt; LogError attempt])
          else
            let '(r, tr) := run_from max_retries remaining' (attempt + 1) in
            (r, Call attempt :: tr)
      end
  end.

Definition _run_agent (max_retries : Z) : option T * list Event :=
  run_from max_retries (Z.to_nat (max_retries + 1)) 0.

Definition default_max_retries : Z := 3.

End RunAgent.

(** *** Zero-hours drain *)

Definition no_hours (case : ClientCase) : bool :=
  match durationHours case with
  | None => true
  | Some d => Qeq_bool d 0
  end.

(** One iteration of the loop over [lines_result.clientCases]; the state is
    [(cleaned_active, no_activity_set)]. *)
Definition drain_step (st : list ClientCase * gset string) (case : ClientCase)
  : list ClientCase * gset string :=
  let '(cleaned_active, no_activity_set) := st in
  if no_hours case then
    match validatedClientCaseNumber case with
    | Some code =>
        if PyStr.truthy code then (cleaned_active, {[ code ]} ∪ no_activity_set)
        else st
    | None => st
    end
  else (cleaned_active ++ [case], no_activity_set).

Definition _post_process_line_items (lines_result : LineItemsResult) : LineItemsResult :=
  let '(cleaned_active, no_activity_set) :=
    foldl drain_step ([], list_to_set (li_clientCasesNoActivity lines_result))
          (li_clientCases lines_result) in
  {| li_clientCases := cleaned_active;
     li_clientCasesNoActivity := merge_sort String.le (elements no_activity_set) |}.

(** *** The self-correction ladder *)

(** [InvoiceRegexExtractor.extract_header_fields(ocr_text)]. *)
Record RegexHeader := {
  rx_kvkNumber : option string;
  rx_vatNumber : option string;
  rx_invoiceNumber : option string
}.

Definition set_kvk (h : InvoiceHeader) (v : option string) : InvoiceHeader :=
  {| supplierName := supplierName h; invoiceNumber := invoiceNumber h;
     invoiceDate := invoiceDate h; kvkNumber := v; vatNumber := vatNumber h |}.

Definition set_vat (h : InvoiceHeader) (v : option string) : InvoiceHeader :=
  {| supplierName := supplierName h; invoiceNumber := invoiceNumber h;
     invoiceDate := invoiceDate h; kvkNumber := kvkNumber h; vatNumber := v |}.

(** Tier 1: fill from the regex output what is still missing. *)
Definition tier1 (regex_data : RegexHeader) (h : InvoiceHeader) : InvoiceHeader :=
  let h :=
    if truthy_opt (rx_kvkNumber regex_data) && negb (truthy_opt (kvkNumber h))
    then set_kvk h (rx_kvkNumber regex_data) else h in
  if truthy_opt (rx_vatNumber regex_data) && negb (truthy_opt (vatNumber h))
  then set_vat h (rx_vatNumber regex_data) else h.

(** Tier 2, once the fallback call has returned [new_header_res]. *)
Definition tier2_merge (new_header_res : option HeaderResult) (h : InvoiceHeader)
  : InvoiceHeader :=
  match new_header_res with
  | Some new =>
      let h :=
        if truthy_opt (kvkNumber (hr_invoiceHeader new))
        then set_kvk h (kvkNumber (hr_invoiceHeader new)) else h in
      if truthy_opt (vatNumber (hr_invoiceHeader new))
      then set_vat h (vatNumber (hr_invoiceHeader new)) else h
  | None => h
  end.

Definition tier2_needed (h : InvoiceHeader) : bool :=
  let missing_kvk := negb (truthy_opt (kvkNumber h)) in
  let missing_vat := negb (truthy_opt (vatNumber h)) in
  missing_kvk || missing_vat.

(** Everything [process_invoice] obtains from outside: the bodies of the
    three agent calls, the file system and the OCR and regex tools. *)
Record World := {
  header_agent : Z → string + HeaderResult;
  lines_agent : Z → string + LineItemsResult;
  fallback_agent : Z → string + HeaderResult;
  pdf_exists : bool;
  ocr_text : string;
  extract_header_fields : string → RegexHeader
}.

Record InvoiceData := {
  filename : option string;
  raw_text : option string;
  kvk_hint : option string;
  vat_hint : option string;
  invoice_number_hint : option string;
  invoice_date_hint : option string;
  allowed_client_cases : option (list string);
  allowed_client_cases_prompt : option (list string);
  allowed_client_cases_valid : option (list string);
  correction_map : option (gmap string string)
}.

Definition valid_allowed_cases (invoice_data : InvoiceData) : list string :=
  let default_allowed := default [] (allowed_client_cases invoice_data) in
  default default_allowed (allowed_client_cases_valid invoice_data).

Definition self_correct (w : World) (h : InvoiceHeader) : InvoiceHeader :=
  if negb (truthy_opt (kvkNumber h)) || negb (truthy_opt (vatNumber h)) then
    if pdf_exists w then
      if PyStr.truthy (ocr_text w) then
        let h := tier1 (extract_header_fields w (ocr_text w)) h in
        if tier2_needed h then
          tier2_merge (fst (_run_agent (fallback_agent w) default_max_retries)) h
        else h
      else h
    else h
  else h.

Definition process_invoice (w : World) (invoice_data : InvoiceData) : InvoiceLLMResult :=
  let valid_allowed := valid_allowed_cases invoice_data in
  let cmap := default ∅ (correction_map invoice_data) in
  let header_res := fst (_run_agent (header_agent w) default_max_retries) in
  let lines_res := fst (_run_agent (lines_agent w) default_max_retries) in
  let header_res :=
    default {| hr_invoiceHeader := empty_header; hr_isCoachingInvoice := false |}
            header_res in
  let header := self_correct w (hr_invoiceHeader header_res) in
  let lines_res :=
    match lines_res with
    | None => {| li_clientCases := []; li_clientCasesNoActivity := [] |}
    | Some l => _post_process_line_items l
    end in
  let final_result :=
    {| invoiceHeader := header;
       isCoachingInvoice := hr_isCoachingInvoice header_res;
       clientCases := li_clientCases lines_res;
       clientCasesNoActivity := li_clientCasesNoActivity lines_res |} in
  let final_result := Utils.apply_client_case_corrections final_result cmap in
  Utils.enforce_allowed_client_cases final_result valid_allowed.

End Agents.

(** ** universal_invoice_processor.py *)
Module Preprocessor.
Import ClientCaseMatcher.

(** The registry file [valid_clientcases.csv] as the constructor finds it:
    absent, present but rejected by the loader (no columns, unreadable), or
    present with the cells of its code column. *)
Inductive IndexFile :=
| FileMissing
| FileRejected
| FileRows (cells : list string).

(** [UniversalInvoiceExtractor.__init__]: the value of
    [self.clientcase_matcher]. *)
Definition init_matcher (f : IndexFile) : option ClientCaseMatcher.t :=
  match f with
  | FileMissing => None
  | FileRejected => None
  | FileRows cells => Some (load_rows cells)
  end.

(** The per-code dictionary stored under ["client_case_matches"]. *)
Record MatchInfo := {
  matchedCode : option string;
  matchStatus : MatchStatus;
  matchConfidence : Q;
  mi_contamination : Contamination;
  mi_candidates : list string;
  mi_notes : option string
}.

Inductive Verdict := accept | needs_review | reject.

Global Instance Verdict_eq_dec : EqDecision Verdict.
Proof. solve_decision. Defined.

Record Counts := {
  n_exact : nat;
  n_fuzzy_io_swap : nat;
  n_unknown : nat;
  n_ambiguous_io_swap : nat
}.

Record Summary := {
  verdict : Verdict;
  reason : string;
  counts : Counts
}.

(** [patterns_found]: the keys of the dictionary that the gatekeeper reads
    or writes.  A key that is absent is [None]; the regex keys are absent
    exactly when no text was extracted ([patterns = {}]). *)
Record Patterns := {
  client_cases : option (list string);
  client_case_matches : option (gmap string MatchInfo);
  client_case_summary : option Summary
}.

Record UniversalInvoiceData := {
  extracted_text : string;
  client_case_numbers : list string;
  is_coaching_invoice : bool;
  text_length : nat;
  patterns_found : Patterns
}.

Definition info_of (r : MatchResult) : MatchInfo :=
  {| matchedCode := matched_code r;
     matchStatus := match_status r;
     matchConfidence := match_confidence r;
     mi_contamination := contamination r;
     mi_candidates := candidates r;
     mi_notes := notes r |}.

Definition set_matches (d : UniversalInvoiceData) (m : gmap string MatchInfo)
  : UniversalInvoiceData :=
  {| extracted_text := extracted_text d;
     client_case_numbers := client_case_numbers d;
     is_coaching_invoice := is_coaching_invoice d;
     text_length := text_length d;
     patterns_found :=
       {| client_cases := client_cases (patterns_found d);
          client_case_matches := Some m;
          client_case_summary := client_case_summary (patterns_found d) |} |}.

Definition annotate_client_cases
    (matcher : option ClientCaseMatcher.t) (invoice_data : UniversalInvoiceData)
  : UniversalInvoiceData :=
  match matcher with
  | None => invoice_data
  | Some m =>
      match client_case_numbers invoice_data with
      | [] => invoice_data
      | cases =>
          let match_info :=
            foldl (fun (acc : gmap string MatchInfo) code =>
                     <[ code := info_of (match_ m code) ]> acc) ∅ cases in
          set_matches invoice_data match_info
      end
  end.

Definition zero_counts : Counts :=
  {| n_exact := 0; n_fuzzy_io_swap := 0; n_unknown := 0; n_ambiguous_io_swap := 0 |}.

(** [counts[status] += 1]. *)
Definition bump (c : Counts) (st : MatchStatus) : Counts :=
  match st with
  | exact =>
      {| n_exact := S (n_exact c); n_fuzzy_io_swap := n_fuzzy_io_swap c;
         n_unknown := n_unknown c; n_ambiguous_io_swap := n_ambiguous_io_swap c |}
  | fuzzy_io_swap =>
      {| n_exact := n_exact c; n_fuzzy_io_swap := S (n_fuzzy_io_swap c);
         n_unknown := n_unknown c; n_ambiguous_io_swap := n_ambiguous_io_swap c |}
  | unknown =>
      {| n_exact := n_exact c; n_fuzzy_io_swap := n_fuzzy_io_swap c;
         n_unknown := S (n_unknown c); n_ambiguous_io_swap := n_ambiguous_io_swap c |}
  | ambiguous_io_swap =>
      {| n_exact := n_exact c; n_fuzzy_io_swap := n_fuzzy_io_swap c;
         n_unknown := n_unknown c; n_ambiguous_io_swap := S (n_ambiguous_io_swap c) |}
  end.

(** The statuses of [matches.values()]. *)
Definition statuses (matches : gmap string MatchInfo) : list MatchStatus :=
  map (fun kv => matchStatus (snd kv)) (map_to_list matches).

Definition reason_no_codes : string :=
  "No clientCaseNumbers found; likely not a coaching invoice".
Definition reason_exact : string :=
  "All clientCaseNumbers are known and match exactly".
Definition reason_unknown : string :=
  "The invoice contains clientCaseNumbers that are either unknown or ambiguous. The sender must update the invoice with valid CCNs.".
Definition reason_fuzzy : string :=
  "Invoice contains clientCaseNumbers with historical character errors (e.g., 1/I or 0/O swaps caused by the 2024–2025 bug). Characters “1” and “0” have now been auto-corrected to “I” and “O.”".

Definition _evaluate_client_case_verdict (invoice_data : UniversalInvoiceData) : Summary :=
  let matches := default ∅ (client_case_matches (patterns_found invoice_data)) in
  if bool_decide (matches = ∅) then
    {| verdict := reject; reason := reason_no_codes; counts := zero_counts |}
  else
    let counts := foldl bump zero_counts (statuses matches) in
    if ((0 <? n_unknown counts) || (0 <? n_ambiguous_io_swap counts))%nat then
      {| verdict := reject; reason := reason_unknown; counts := counts |}
    else if (0 <? n_fuzzy_io_swap counts)%nat then
      {| verdict := needs_review; reason := reason_fuzzy; counts := counts |}
    else
      {| verdict := accept; reason := reason_exact; counts := counts |}.

(** [process_invoice] once the text has been extracted: [text] is the
    extracted text and [find_patterns] gives the candidate codes of the
    pattern search, which runs only on a non-empty text ([patterns = {}]
    otherwise). *)
Definition process_invoice
    (matcher : option ClientCaseMatcher.t) (find_patterns : string → list string)
    (text : string) : UniversalInvoiceData :=
  let patterns := if PyStr.truthy text then Some (find_patterns text) else None in
  let invoice_data :=
    {| extracted_text := text;
       client_case_numbers := default [] patterns;
       is_coaching_invoice := false;
       text_length := PyStr.len text;
       patterns_found :=
         {| client_cases := patterns; client_case_matches := None;
            client_case_summary := None |} |} in
  let invoice_data := annotate_client_cases matcher invoice_data in
  let summary := _evaluate_client_case_verdict invoice_data in
  {| extracted_text := extracted_text invoice_data;
     client_case_numbers := client_case_numbers invoice_data;
     is_coaching_invoice :=
       match client_case_numbers invoice_data with [] => false | _ => true end;
     text_length := text_length invoice_data;
     patterns_found :=
       {| client_cases := client_cases (patterns_found invoice_data);
          client_case_matches := client_case_matches (patterns_found invoice_data);
          client_case_summary := Some summary |} |}.

(** The manifest entry written by [save_results]. *)
Definition manifest_verdict (inv : UniversalInvoiceData) : Verdict :=
  match client_case_summary (patterns_found inv) with
  | Some s => verdict s
  | None => accept
  end.

Definition ready_for_llm (inv : UniversalInvoiceData) : bool :=
  is_coaching_invoice inv && (0 <? text_length inv)%nat
  && negb (bool_decide (manifest_verdict inv = reject)).

End Preprocessor.

(** ** utils.py: the invoice context handed to the orchestrator *)
Module Loader.
Import LlmModels ClientCaseMatcher Preprocessor.

(** [status in ["exact", "fuzzy_io_swap"]]. *)
Definition status_usable (st : MatchStatus) : bool :=
  match st with
  | exact | fuzzy_io_swap => true
  | _ => false
  end.

(** One iteration of the loop over [client_case_matches.items()]; the state
    is [(allowed_client_cases_raw, allowed_client_cases_valid,
    correction_map)]. *)
Definition context_step
    (st : list string * list string * gmap string string)
    (item : string * MatchInfo)
  : list string * list string * gmap string string :=
  let '(allowed_raw, allowed_valid, cmap) := st in
  let '(raw_code, info) := item in
  match matchedCode info with
  | Some matched_code =>
      if PyStr.truthy matched_code && status_usable (matchStatus info) then
        (allowed_raw ++ [raw_code], allowed_valid ++ [matched_code],
         <[ raw_code := matched_code ]> cmap)
      else st
  | None => st
  end.

Definition build_allow_lists (items : list (string * MatchInfo))
  : list string * list string * gmap string string :=
  foldl context_step ([], [], ∅) items.

(** The dictionary appended to [examples] for one manifest entry: [name] is
    the file name, [text] the content of the raw-text file, the four hints
    come from the metadata, and [items] are the items of
    [client_case_matches] ([[]] when the key is absent). *)
Definition invoice_context
    (name text : string) (kvk vat number date_hint : option string)
    (items : list (string * MatchInfo)) : Agents.InvoiceData :=
  let '(allowed_raw, allowed_valid, cmap) := build_allow_lists items in
  {| Agents.filename := Some name;
     Agents.raw_text := Some text;
     Agents.kvk_hint := kvk;
     Agents.vat_hint := vat;
     Agents.invoice_number_hint := number;
     Agents.invoice_date_hint := date_hint;
     Agents.allowed_client_cases := None;
     Agents.allowed_client_cases_prompt := Some allowed_raw;
     Agents.allowed_client_cases_valid := Some allowed_valid;
     Agents.correction_map := Some cmap |}.

End Loader.

(** * Vocabulary of the properties and sample inputs *)

Section MatcherVocabulary.
Import PyStr ClientCaseMatcher Preprocessor.

(** A list of characters is trimmed when neither end is whitespace; this
    depends only on where the whitespace is. *)
Definition trimmed (l : list ascii) : Prop :=
  head (isspace <$> l) ≠ Some true ∧ last (isspace <$> l) ≠ Some true.

(** Position [p] holds neither of the two glyphs that [swap_at] rewrites. *)
Definition settled (l : list ascii) (p : nat) : Prop :=
  l !! p ≠ Some "I"%char ∧ l !! p ≠ Some "O"%char.

(** Two registries used as running examples: one where an OCR-damaged code
    has one canonical partner, one where it has two. *)
Definition registry_single : ClientCaseMatcher.t :=
  load_rows ["JN16-I21-284"; "JN16-I21-285"].
Definition registry_double : ClientCaseMatcher.t :=
  load_rows ["IB12-I34-567"; "1B12-I34-567"].

Definition count_of (st : MatchStatus) (c : Counts) : nat :=
  match st with
  | exact => n_exact c
  | fuzzy_io_swap => n_fuzzy_io_swap c
  | unknown => n_unknown c
  | ambiguous_io_swap => n_ambiguous_io_swap c
  end.

(** Some entry of the match dictionary has status [st]. *)
Definition has_status (matches : gmap string MatchInfo) (st : MatchStatus) : Prop :=
  ∃ code info, matches !! code = Some info ∧ matchStatus info = st.

(** Invoices carrying one candidate code, pre-processed against
    [registry_single]. *)
Definition invoice_with (code : string) : UniversalInvoiceData :=
  Preprocessor.process_invoice (Some registry_single) (λ _, [code]) ("Factuur " +:+ code).

(** A well-formed invoice: text was extracted and the pattern library found
    a candidate of the right shape. *)
Definition sample_text : string := "Factuur 2025-001 coaching JN16-I21-284 2,00 uur".
Definition sample_candidates : list string := ["JN16-I21-284"].

End MatcherVocabulary.

Section OrchestratorVocabulary.
Import PyStr LlmModels Utils Agents.

(** The code a drained line contributes to the no-activity set. *)
Definition moved_code (case : ClientCase) : list string :=
  if no_hours case then
    match validatedClientCaseNumber case with
    | Some code => if truthy code then [code] else []
    | None => []
    end
  else [].

Definition has_hours (case : ClientCase) : bool := negb (no_hours case).

(** The record handed to the two post-processing passes. *)
Definition aggregated (w : World) : InvoiceLLMResult :=
  let header_res :=
    default {| hr_invoiceHeader := empty_header; hr_isCoachingInvoice := false |}
            (fst (_run_agent (header_agent w) default_max_retries)) in
  let lines_res :=
    match fst (_run_agent (lines_agent w) default_max_retries) with
    | None => {| li_clientCases := []; li_clientCasesNoActivity := [] |}
    | Some l => _post_process_line_items l
    end in
  {| invoiceHeader := self_correct w (hr_invoiceHeader header_res);
     isCoachingInvoice := hr_isCoachingInvoice header_res;
     clientCases := li_clientCases lines_res;
     clientCasesNoActivity := li_clientCasesNoActivity lines_res |}.

(** A line-items answer with a drained line that has no code and a line
    with a negative duration. *)
Definition line_without_code : ClientCase :=
  {| validatedClientCaseNumber := Some ""; rawClientCaseNumber := None;
     date := None; durationHours := Some 0%Q |}.
Definition line_negative : ClientCase :=
  {| validatedClientCaseNumber := Some "JN16-I21-284";
     rawClientCaseNumber := Some "JN16-I21-284";
     date := Some "2025-03-14"; durationHours := Some (-1)%Q |}.
Definition lines_sample : LineItemsResult :=
  {| li_clientCases := [line_without_code; line_negative];
     li_clientCasesNoActivity := [] |}.

(** The attempt fails with an error that the wrapper classifies as
    transient. *)
Definition transient_at {T : Type} (body : Z → string + T) (i : Z) : Prop :=
  ∃ e, body i = inl e ∧ is_overload e = true.

(** [k] failed attempts from attempt [j] on, each followed by its wait of
    [2 * 2 ^ attempt] seconds. *)
Fixpoint backoff_from (j : Z) (k : nat) : list Event :=
  match k with
  | O => []
  | S k' => Call j :: Sleep (2 * 2 ^ j) :: backoff_from (j + 1) k'
  end.

(** An agent that is overloaded twice and then answers. *)
Definition flaky (attempt : Z) : string + nat :=
  if attempt <? 2 then inl "503 UNAVAILABLE: the model is overloaded" else inr 7%nat.

(** The first header answer knows the chamber-of-commerce number but not
    the VAT number; OCR text is available, the regex pass finds nothing in
    it, and the fallback answer carries both numbers. *)
Definition header_first : HeaderResult :=
  {| hr_invoiceHeader :=
       {| supplierName := Some "Acme BV"; invoiceNumber := Some "2025-001";
          invoiceDate := Some "2025-03-14";
          kvkNumber := Some "84726180"; vatNumber := None |};
     hr_isCoachingInvoice := true |}.

Definition header_fallback : HeaderResult :=
  {| hr_invoiceHeader :=
       {| supplierName := Some "Acme BV"; invoiceNumber := Some "2025-001";
          invoiceDate := Some "2025-03-14";
          kvkNumber := Some "11111111"; vatNumber := Some "NL863334647B01" |};
     hr_isCoachingInvoice := true |}.

Definition case_of (code : string) (hours : Q) : ClientCase :=
  {| validatedClientCaseNumber := Some code; rawClientCaseNumber := Some code;
     date := None; durationHours := Some hours |}.

Definition lines_first : LineItemsResult :=
  {| li_clientCases :=
       [case_of "JN16-121-284" (3 # 2); case_of "XX00-X00-000" 2;
        case_of "JN16-I21-285" 0];
     li_clientCasesNoActivity := ["QQ11-Q11-111"] |}.

Definition sample_world : World :=
  {| header_agent := λ _, inr header_first;
     lines_agent := λ _, inr lines_first;
     fallback_agent := λ _, inr header_fallback;
     pdf_exists := true;
     ocr_text := "Acme BV factuur 2025-001";
     extract_header_fields := λ _,
       {| rx_kvkNumber := None; rx_vatNumber := None; rx_invoiceNumber := None |} |}.

Definition sample_invoice : InvoiceData :=
  {| filename := Some "acme_2025_001.pdf";
     raw_text := Some "Acme BV factuur 2025-001 JN16-121-284 1,5 uur";
     kvk_hint := None; vat_hint := None;
     invoice_number_hint := Some "2025-001"; invoice_date_hint := Some "2025-03-14";
     allowed_client_cases := None;
     allowed_client_cases_prompt := Some ["JN16-121-284"; "JN16-I21-285"];
     allowed_client_cases_valid := Some ["JN16-I21-284"; "JN16-I21-285"];
     correction_map :=
       Some (<[ "JN16-121-284" := "JN16-I21-284" ]>
               (<[ "JN16-I21-285" := "JN16-I21-285" ]> ∅)) |}.

Definition sample_final : InvoiceLLMResult := process_invoice sample_world sample_invoice.

End OrchestratorVocabulary.

Section RegistryVocabulary.
Import PyStr ClientCaseMatcher.

(** The codes a registry file contributes, in row order: the trimmed cells
    that are not empty. *)
Definition registry_of (cells : list string) : list string :=
  filter (λ c, c ≠ "") (strip <$> cells).

(** The bucket of the fuzzy index under a canonical form
    ([index_by_canon.get(canon, [])]). *)
Definition bucket (m : ClientCaseMatcher.t) (canon : string) : list string :=
  default [] (index_by_canon m !! canon).

End RegistryVocabulary.

Section WrapperVocabulary.
Import Agents.

(** Number of agent runs and total waiting time recorded in a trace. *)
Definition calls (tr : list Event) : nat :=
  length (List.filter (λ e, match e with Call _ => true | _ => false end) tr).

Definition slept (tr : list Event) : Z :=
  foldr (λ e acc, match e with Sleep s => s + acc | _ => acc end) 0 tr.

(** Waiting that is still possible from attempt [a] on. *)
Definition wait_budget (max_retries a : Z) : Z :=
  if a <? max_retries then 2 * 2 ^ max_retries - 2 * 2 ^ a else 0.

End WrapperVocabulary.

Section TextVocabulary.
Import PyStr.

(** Text of ASCII characters only, where the case maps of the model are
    those of Python. *)
Definition ascii_only (s : string) : Prop :=
  Forall (λ a, (nat_of_ascii a < 128)%nat) (chars s).

End TextVocabulary.

Section AmountVocabulary.
Import PyStr RegexTools.

(** What one amount adds to the list of parsed values: the value of
    [float] on the string handed to it, nothing where [float] raises. *)
Definition converted {F : Type} (float : string → option F) (s : string) : list F :=
  match float s with
  | Some v => [v]
  | None => []
  end.


End AmountVocabulary.

Section ValidationVocabulary.
Import Agents.

(** [str(e)] of the [ValidationError] that [model_validate_json] raises
    when the header agent answers with [kvkNumber] as the JSON number
    84750312 where the schema asks for a string (the line breaks of the
    message are written as blanks). *)
Definition validation_message : string :=
  "1 validation error for HeaderResult invoiceHeader.kvkNumber Input should be a valid string [type=string_type, input_value=84750312, input_type=int]".

(** A header agent that gives this answer at every attempt. *)
Definition invalid_answer : Z → string + HeaderResult := λ _, inl validation_message.

End ValidationVocabulary.

Section OutcomeVocabulary.
Import PyStr LlmModels Utils Agents.

(** Strictly increasing in the order of [sorted]. *)
Definition strictly_sorted (l : list string) : Prop :=
  StronglySorted (λ a b, String.le a b ∧ a ≠ b) l.

(** A header answer without the two numbers, an OCR text that holds them,
    and the regex output for that text. *)
Definition header_no_numbers : InvoiceHeader :=
  {| supplierName := Some "Acme BV"; invoiceNumber := Some "2025-001";
     invoiceDate := Some "2025-03-14"; kvkNumber := None; vatNumber := None |}.

Definition world_ocr_complete : World :=
  {| header_agent := λ _, inr {| hr_invoiceHeader := header_no_numbers;
                                 hr_isCoachingInvoice := true |};
     lines_agent := λ _, inl "400 bad request";
     fallback_agent := λ _, inr header_fallback;
     pdf_exists := true;
     ocr_text := "KvK: 84726180 BTW: NL863334647B01";
     extract_header_fields := λ _,
       {| rx_kvkNumber := Some "84726180"; rx_vatNumber := Some "NL863334647B01";
          rx_invoiceNumber := None |} |}.

End OutcomeVocabulary.

Section LoaderVocabulary.
Import LlmModels ClientCaseMatcher Preprocessor Loader.

(** The items the loader keeps: a non-empty matched code with a usable
    status. *)
Definition kept_item (item : string * MatchInfo) : option (string * string) :=
  match matchedCode (snd item) with
  | Some matched =>
      if PyStr.truthy matched && status_usable (matchStatus (snd item))
      then Some (fst item, matched) else None
  | None => None
  end.

(** The match dictionary of a pre-processed invoice, as the loader reads it
    back from the metadata. *)
Definition match_items (d : UniversalInvoiceData) : list (string * MatchInfo) :=
  map_to_list (default ∅ (client_case_matches (patterns_found d))).

End LoaderVocabulary.

Section PipelineVocabulary.
Import LlmModels ClientCaseMatcher Preprocessor Loader.

(** The codes of the registry behind a registry file. *)
Definition file_codes (f : IndexFile) : list string :=
  match f with
  | FileRows cells => registry_of cells
  | _ => []
  end.

(** Both phases in a row for one invoice: pre-processing against the registry
    file, the context built from the stored match dictionary, and the
    orchestration in a given world. *)
Definition pipeline
    (f : IndexFile) (find_patterns : string → list string) (name text : string)
    (w : Agents.World) : InvoiceLLMResult :=
  let d := Preprocessor.process_invoice (init_matcher f) find_patterns text in
  Agents.process_invoice w
    (invoice_context name text None None None None (match_items d)).

End PipelineVocabulary.

Section PipelineSamples.
Import LlmModels ClientCaseMatcher Preprocessor Loader.

Definition sample_items : list (string * MatchInfo) :=
  [("JN16-121-284", info_of (match_ registry_single "JN16-121-284"));
   ("ZZ99-Z99-999", info_of (match_ registry_single "ZZ99-Z99-999"))].

Definition sample_file : IndexFile := FileRows ["JN16-I21-284"; "JN16-I21-285"].

End PipelineSamples.

Section GateVocabulary.
Import LlmModels ClientCaseMatcher Preprocessor.

(** The dictionary that annotation builds for a list of candidates. *)
Definition annotated (m : ClientCaseMatcher.t) (cases : list string)
  : gmap string MatchInfo :=
  foldl (λ (acc : gmap string MatchInfo) code, <[ code := info_of (match_ m code) ]> acc)
        ∅ cases.

(** The match dictionary read back from a pre-processed invoice, the absent
    key standing for the empty dictionary. *)
Definition stored_matches
    (matcher : option ClientCaseMatcher.t) (find_patterns : string → list string)
    (text : string) : gmap string MatchInfo :=
  match matcher with
  | Some m => if PyStr.truthy text then annotated m (find_patterns text) else ∅
  | None => ∅
  end.

End GateVocabulary.

(** * Verified properties *)

(** ** String built-ins *)
Section PyStrFacts.
Import PyStr.

Lemma chars_join l : chars (join l) = l.
Proof. apply list_ascii_of_string_of_list_ascii. Qed.

Lemma join_chars s : join (chars s) = s.
Proof. apply string_of_list_ascii_of_string. Qed.

Lemma len_join l : len (join l) = length l.
Proof. unfold len, join. induction l; simpl; congruence. Qed.

Lemma upper_char_idem a : upper_char (upper_char a) = upper_char a.
Proof. by destruct a as [[] [] [] [] [] [] [] []]. Qed.

Lemma isspace_upper_char a : isspace (upper_char a) = isspace a.
Proof. by destruct a as [[] [] [] [] [] [] [] []]. Qed.

Lemma lstrip_chars_head l : head (isspace <$> lstrip_chars l) ≠ Some true.
Proof.
  induction l as [|a l IH]; simpl; [done|].
  destruct (isspace a) eqn:Ha; [done|]. simpl. rewrite Ha. done.
Qed.

Lemma lstrip_chars_id l : head (isspace <$> l) ≠ Some true → lstrip_chars l = l.
Proof. destruct l as [|a l]; simpl; [done|]. by destruct (isspace a). Qed.

Lemma lstrip_chars_suffix l : ∃ ws, l = ws ++ lstrip_chars l.
Proof.
  induction l as [|a l [ws IH]]; simpl; [by exists []|].
  destruct (isspace a); [|by exists []].
  exists (a :: ws). simpl. congruence.
Qed.

Lemma strip_chars_trimmed l : trimmed (strip_chars l).
Proof.
  unfold trimmed, strip_chars.
  set (l' := lstrip_chars l).
  split.
  - destruct (lstrip_chars_suffix (reverse l')) as [ws Hws].
    assert (Hl' : l' = reverse (lstrip_chars (reverse l')) ++ reverse ws).
    { rewrite <- reverse_app, <- Hws. by rewrite reverse_involutive. }
    destruct (reverse (lstrip_chars (reverse l'))) as [|b r] eqn:Hr; [done|].
    pose proof (lstrip_chars_head l) as Hh. fold l' in Hh.
    rewrite Hl' in Hh. exact Hh.
  - rewrite fmap_reverse, last_reverse. apply lstrip_chars_head.
Qed.

Lemma strip_chars_id l : trimmed l → strip_chars l = l.
Proof.
  intros [Hh Hl]. unfold strip_chars.
  rewrite (lstrip_chars_id l Hh).
  rewrite lstrip_chars_id; [apply reverse_involutive|].
  by rewrite fmap_reverse, head_reverse.
Qed.

Lemma trimmed_same_spaces l1 l2 :
  isspace <$> l1 = isspace <$> l2 → trimmed l1 → trimmed l2.
Proof. unfold trimmed. by intros ->. Qed.

Lemma trimmed_upper l : trimmed l → trimmed (map upper_char l).
Proof.
  apply trimmed_same_spaces.
  change (map upper_char l) with (upper_char <$> l).
  rewrite <- list_fmap_compose. apply list_fmap_ext.
  intros ? a _. simpl. by rewrite isspace_upper_char.
Qed.

Lemma map_upper_char_idem l : map upper_char (map upper_char l) = map upper_char l.
Proof. rewrite map_map. apply map_ext. apply upper_char_idem. Qed.

End PyStrFacts.

(** ** Canonical form of a client case number *)
Section Canonical.
Import PyStr ClientCaseMatcher.

Lemma swap_at_length l p : length (swap_at l p) = length l.
Proof.
  unfold swap_at. destruct (p <? length l)%nat; [|done].
  destruct (l !! p) as [[[] [] [] [] [] [] [] []]|]; by rewrite ?length_insert.
Qed.

Lemma swap_at_settled l p : settled (swap_at l p) p.
Proof.
  unfold swap_at, settled.
  destruct (p <? length l)%nat eqn:Hp.
  - apply Nat.ltb_lt in Hp.
    destruct (l !! p) as [[[] [] [] [] [] [] [] []]|] eqn:Hl;
      rewrite ?list_lookup_insert_eq by done; rewrite ?Hl; done.
  - apply Nat.ltb_ge in Hp. rewrite (lookup_ge_None_2 l p) by lia. done.
Qed.

Lemma swap_at_keeps_settled l p q : settled l q → settled (swap_at l p) q.
Proof.
  intros Hq. destruct (decide (p = q)) as [->|Hne]; [apply swap_at_settled|].
  unfold swap_at, settled in *.
  destruct (p <? length l)%nat; [|done].
  destruct (l !! p) as [[[] [] [] [] [] [] [] []]|];
    rewrite ?list_lookup_insert_ne by done; done.
Qed.

Lemma swap_at_id l p : settled l p → swap_at l p = l.
Proof.
  intros [HI HO]. unfold swap_at.
  destruct (p <? length l)%nat; [|done].
  destruct (l !! p) as [[[] [] [] [] [] [] [] []]|]; done.
Qed.

Lemma swap_at_spaces l p : isspace <$> swap_at l p = isspace <$> l.
Proof.
  unfold swap_at. destruct (p <? length l)%nat; [|done].
  destruct (l !! p) as [[[] [] [] [] [] [] [] []]|] eqn:Hl; try done;
    rewrite list_fmap_insert; apply list_insert_id;
    by rewrite list_lookup_fmap, Hl.
Qed.

Lemma swap_at_upper l p :
  map upper_char l = l → map upper_char (swap_at l p) = swap_at l p.
Proof.
  intros Hl. unfold swap_at. destruct (p <? length l)%nat; [|done].
  destruct (l !! p) as [[[] [] [] [] [] [] [] []]|]; try done;
    change (map upper_char ?x) with (upper_char <$> x) in *;
    rewrite list_fmap_insert; by rewrite Hl.
Qed.

Lemma swaps_length ps l : length (foldl swap_at l ps) = length l.
Proof.
  revert l. induction ps as [|p ps IH]; intros l; simpl; [done|].
  by rewrite IH, swap_at_length.
Qed.

Lemma swaps_spaces ps l : isspace <$> foldl swap_at l ps = isspace <$> l.
Proof.
  revert l. induction ps as [|p ps IH]; intros l; simpl; [done|].
  by rewrite IH, swap_at_spaces.
Qed.

Lemma swaps_upper ps l :
  map upper_char l = l → map upper_char (foldl swap_at l ps) = foldl swap_at l ps.
Proof.
  revert l. induction ps as [|p ps IH]; intros l Hl; simpl; [done|].
  apply IH. by apply swap_at_upper.
Qed.

Lemma swaps_keep_settled ps l q : settled l q → settled (foldl swap_at l ps) q.
Proof.
  revert l. induction ps as [|p ps IH]; intros l Hq; simpl; [done|].
  apply IH. by apply swap_at_keeps_settled.
Qed.

Lemma swaps_settled ps l : Forall (settled (foldl swap_at l ps)) ps.
Proof.
  revert l. induction ps as [|p ps IH]; intros l; simpl; constructor.
  - apply swaps_keep_settled, swap_at_settled.
  - apply IH.
Qed.

Lemma swaps_id ps l : Forall (settled l) ps → foldl swap_at l ps = l.
Proof.
  induction 1 as [|p ps Hp _ IH]; simpl; [done|].
  by rewrite swap_at_id.
Qed.

(** On a trimmed, upper-case argument the first two steps do nothing. *)
Lemma canonical_of_normal l :
  trimmed l → map upper_char l = l →
  canonical_case_number (join l) =
    if (length l <? 11)%nat then join l
    else join (foldl swap_at l letter_positions).
Proof.
  intros Ht Hu. unfold canonical_case_number, upper, strip.
  rewrite !chars_join, (strip_chars_id l Ht), Hu, len_join. done.
Qed.

(** C8. Canonicalisation is idempotent: for every string [x],
    [canonical_case_number (canonical_case_number x)] equals
    [canonical_case_number x], where the function trims, upper-cases and
    rewrites I to 1 and O to 0 at positions 0, 1 and 5. *)
Theorem canonical_case_number_idempotent (x : string) :
  canonical_case_number (canonical_case_number x) = canonical_case_number x.
Proof.
  set (l := map upper_char (strip_chars (chars x))).
  assert (Ht : trimmed l) by apply trimmed_upper, strip_chars_trimmed.
  assert (Hu : map upper_char l = l) by apply map_upper_char_idem.
  assert (Hx : canonical_case_number x =
               if (length l <? 11)%nat then join l
               else join (foldl swap_at l letter_positions)).
  { unfold canonical_case_number, upper, strip.
    by rewrite !chars_join, len_join. }
  rewrite Hx. destruct (length l <? 11)%nat eqn:Hlen.
  - rewrite canonical_of_normal by done. by rewrite Hlen.
  - rewrite canonical_of_normal.
    + rewrite swaps_length, Hlen. f_equal.
      apply swaps_id, swaps_settled.
    + eapply trimmed_same_spaces; [symmetry; apply swaps_spaces|done].
    + by apply swaps_upper.
Qed.

End Canonical.

(** ** Contamination flag of a match result *)
Section MatchContamination.
Import PyStr ClientCaseMatcher.

Lemma match_fuzzy_inv m code :
  match_status (match_ m code) = fuzzy_io_swap →
  ∃ matched,
    default [] (index_by_canon m !! canonical_case_number (strip code)) = [matched]
    ∧ match_ m code =
        {| original_code := strip code; matched_code := Some matched;
           match_status := fuzzy_io_swap; match_confidence := (3 # 4)%Q;
           contamination := contamination_flag matched;
           candidates := [matched];
           notes := Some "Matched via I/1 or O/0 canonical mapping" |}.
Proof.
  unfold match_.
  destruct (negb (truthy (strip code))); [done|].
  destruct (decide (strip code ∈ valid_codes m)); [done|].
  destruct (default [] (index_by_canon m !! canonical_case_number (strip code)))
    as [|matched [|other rest]]; [done| |done].
  intros _. by exists matched.
Qed.

Lemma match_ambiguous_inv m code :
  match_status (match_ m code) = ambiguous_io_swap →
  contamination (match_ m code) = none
  ∧ matched_code (match_ m code) = None
  ∧ (2 ≤ length (candidates (match_ m code)))%nat.
Proof.
  unfold match_.
  destruct (negb (truthy (strip code))); [done|].
  destruct (decide (strip code ∈ valid_codes m)); [done|].
  destruct (default [] (index_by_canon m !! canonical_case_number (strip code)))
    as [|matched [|other rest]]; [done|done|].
  intros _. simpl. repeat split; lia.
Qed.

(** C9. A match result with status [ambiguous_io_swap] carries the constant
    contamination [none], also for an original code with 'I' or 'O' glyphs;
    a match result with status [fuzzy_io_swap] carries the contamination
    flag of the matched registry code, not that of the original code. *)
Theorem match_contamination_source :
  (∀ m code,
      match_status (match_ m code) = ambiguous_io_swap →
      contamination (match_ m code) = none)
  ∧ (∀ m code,
      match_status (match_ m code) = fuzzy_io_swap →
      ∃ matched,
        matched_code (match_ m code) = Some matched
        ∧ contamination (match_ m code) = contamination_flag matched)
  ∧ (∃ m code,
      match_status (match_ m code) = ambiguous_io_swap
      ∧ contamination_flag (original_code (match_ m code)) ≠ none)
  ∧ (∃ m code,
      match_status (match_ m code) = fuzzy_io_swap
      ∧ contamination (match_ m code)
          ≠ contamination_flag (original_code (match_ m code))).
Proof.
  split; [|split; [|split]].
  - intros m code H. by apply match_ambiguous_inv.
  - intros m code H. destruct (match_fuzzy_inv m code H) as (matched & _ & ->).
    by exists matched.
  - exists registry_double, "IB12-134-567". by vm_compute.
  - exists registry_single, "JN16-121-284". by vm_compute.
Qed.

Lemma match_contamination_source_witness :
  contamination (match_ registry_double "IB12-134-567") = none
  ∧ ∃ matched,
      matched_code (match_ registry_single "JN16-121-284") = Some matched
      ∧ contamination (match_ registry_single "JN16-121-284")
          = contamination_flag matched.
Proof.
  split.
  - apply (proj1 match_contamination_source). vm_compute. reflexivity.
  - apply (proj1 (proj2 match_contamination_source)). vm_compute. reflexivity.
Defined.

End MatchContamination.

(** ** The gatekeeper verdict *)
Section Verdict.
Import ClientCaseMatcher Preprocessor.

Lemma count_of_bump st c a :
  (0 < count_of st (bump c a))%nat ↔ (0 < count_of st c)%nat ∨ a = st.
Proof. destruct st, a; simpl; split; intros; (lia || intuition (lia || congruence)). Qed.

Lemma count_of_foldl st l c :
  (0 < count_of st (foldl bump c l))%nat ↔ (0 < count_of st c)%nat ∨ st ∈ l.
Proof.
  revert c. induction l as [|a l IH]; intros c; simpl.
  - rewrite elem_of_nil. tauto.
  - rewrite IH, count_of_bump, elem_of_cons. intuition congruence.
Qed.

Lemma elem_of_statuses matches st : st ∈ statuses matches ↔ has_status matches st.
Proof.
  unfold statuses, has_status.
  change (map ?f ?l) with (f <$> l). rewrite list_elem_of_fmap. split.
  - intros [[code info] [-> Hin]]. apply elem_of_map_to_list in Hin. eauto.
  - intros (code & info & Hl & <-). exists (code, info). split; [done|].
    by apply elem_of_map_to_list.
Qed.

Lemma counted_iff matches st :
  (0 <? count_of st (foldl bump zero_counts (statuses matches)))%nat = true
  ↔ has_status matches st.
Proof.
  rewrite Nat.ltb_lt, count_of_foldl, elem_of_statuses.
  destruct st; simpl; intuition lia.
Qed.

(** C3. The verdict follows the ordered rule: without matches it is
    [reject]; otherwise, with a match of status [unknown] or
    [ambiguous_io_swap] it is [reject]; otherwise, with a match of status
    [fuzzy_io_swap] it is [needs_review]; otherwise it is [accept]. *)
Theorem verdict_ordered_rule (invoice_data : UniversalInvoiceData) :
  let matches := default ∅ (client_case_matches (patterns_found invoice_data)) in
  let v := verdict (_evaluate_client_case_verdict invoice_data) in
  (matches = ∅ → v = reject)
  ∧ (matches ≠ ∅ →
     has_status matches unknown ∨ has_status matches ambiguous_io_swap →
     v = reject)
  ∧ (matches ≠ ∅ →
     ¬ has_status matches unknown → ¬ has_status matches ambiguous_io_swap →
     has_status matches fuzzy_io_swap →
     v = needs_review)
  ∧ (matches ≠ ∅ →
     ¬ has_status matches unknown → ¬ has_status matches ambiguous_io_swap →
     ¬ has_status matches fuzzy_io_swap →
     v = accept).
Proof.
  intros matches v. subst v. unfold _evaluate_client_case_verdict.
  fold matches.
  pose proof (counted_iff matches unknown) as Hu.
  pose proof (counted_iff matches ambiguous_io_swap) as Ha.
  pose proof (counted_iff matches fuzzy_io_swap) as Hf.
  simpl in Hu, Ha, Hf.
  case_bool_decide as He; simpl.
  - repeat split; done.
  - destruct (0 <? n_unknown _)%nat eqn:Eu;
      destruct (0 <? n_ambiguous_io_swap _)%nat eqn:Ea;
      destruct (0 <? n_fuzzy_io_swap _)%nat eqn:Ef; simpl;
      repeat split; try done; intros;
      repeat match goal with
             | H : _ ↔ _ |- _ => destruct H
             end;
      try (exfalso; intuition congruence).
Qed.

Lemma has_status_singleton code info st :
  has_status {[ code := info ]} st ↔ matchStatus info = st.
Proof.
  unfold has_status. split.
  - intros (c & i & Hl & Hst). apply lookup_singleton_Some in Hl as [_ ->]. done.
  - intros H. exists code, info. by rewrite lookup_singleton_eq.
Qed.

Lemma invoice_with_matches code :
  default ∅ (client_case_matches (patterns_found (invoice_with code)))
  = {[ code := info_of (match_ registry_single code) ]}.
Proof. reflexivity. Qed.

Lemma verdict_ordered_rule_witness :
  verdict (_evaluate_client_case_verdict
             (process_invoice (Some registry_single) (λ _, []) "Factuur")) = reject
  ∧ verdict (_evaluate_client_case_verdict (invoice_with "ZZ99-Z99-999")) = reject
  ∧ verdict (_evaluate_client_case_verdict (invoice_with "JN16-121-284")) = needs_review
  ∧ verdict (_evaluate_client_case_verdict (invoice_with "JN16-I21-284")) = accept.
Proof.
  split; [|split; [|split]].
  - apply (proj1 (verdict_ordered_rule _)). reflexivity.
  - apply (proj1 (proj2 (verdict_ordered_rule _))).
    + rewrite invoice_with_matches. apply insert_non_empty.
    + left. rewrite invoice_with_matches. apply has_status_singleton.
      vm_compute. reflexivity.
  - apply (proj1 (proj2 (proj2 (verdict_ordered_rule _))));
      rewrite invoice_with_matches;
      [apply insert_non_empty | rewrite has_status_singleton ..];
      vm_compute; congruence.
  - apply (proj2 (proj2 (proj2 (verdict_ordered_rule _))));
      rewrite invoice_with_matches;
      [apply insert_non_empty | rewrite has_status_singleton ..];
      vm_compute; congruence.
Defined.

End Verdict.

(** ** A missing registry *)
Section MissingRegistry.
Import ClientCaseMatcher Preprocessor.

(** What the gatekeeper does for every invoice once the registry file is
    missing: the matcher is disabled and annotation leaves the invoice
    untouched, so that no match dictionary is stored; the verdict function
    then takes its first branch, whatever the text holds. *)
Lemma missing_registry_rejects (find_patterns : string → list string) (text : string) :
  let d := process_invoice (init_matcher FileMissing) find_patterns text in
  init_matcher FileMissing = None
  ∧ (∀ invoice_data, annotate_client_cases (init_matcher FileMissing) invoice_data
                     = invoice_data)
  ∧ client_case_matches (patterns_found d) = None
  ∧ client_case_summary (patterns_found d)
      = Some {| verdict := reject; reason := reason_no_codes; counts := zero_counts |}
  ∧ manifest_verdict d = reject
  ∧ ready_for_llm d = false.
Proof.
  simpl. repeat split.
  unfold ready_for_llm, manifest_verdict. simpl.
  by rewrite andb_false_r.
Qed.

(** C2, on the code. The registry file is missing and the invoice is well
    formed: text was extracted, one candidate of the right shape was found
    in it and the invoice is flagged as a coaching invoice.  The matcher is
    disabled and annotation is skipped, as the claim says, but the verdict
    is [reject] and not [accept]: with no match dictionary stored, the
    verdict function answers that no client case numbers were found,
    although one was, and the invoice is withheld from the agents. *)
Theorem missing_registry_verdict_not_accept :
  let d := process_invoice (init_matcher FileMissing) (λ _, sample_candidates)
                           sample_text in
  init_matcher FileMissing = None
  ∧ (0 < text_length d)%nat
  ∧ client_case_numbers d = ["JN16-I21-284"]
  ∧ is_coaching_invoice d = true
  ∧ client_case_matches (patterns_found d) = None
  ∧ _evaluate_client_case_verdict d
    = {| verdict := reject;
         reason := "No clientCaseNumbers found; likely not a coaching invoice";
         counts := zero_counts |}
  ∧ manifest_verdict d = reject
  ∧ manifest_verdict d ≠ accept
  ∧ ready_for_llm d = false.
Proof. vm_compute. repeat split; (lia || congruence). Qed.

End MissingRegistry.

(** ** Sorted, duplicate-free code lists *)
Section SortedSet.
Import Utils.

Lemma elem_of_sorted_elements (S : gset string) code :
  code ∈ merge_sort String.le (elements S) ↔ code ∈ S.
Proof. by rewrite merge_sort_Permutation, elem_of_elements. Qed.

Lemma elem_of_sorted_set xs code : code ∈ sorted_set xs ↔ code ∈ xs.
Proof.
  unfold sorted_set. by rewrite elem_of_sorted_elements, elem_of_list_to_set.
Qed.

Lemma sorted_set_sorted xs : StronglySorted String.le (sorted_set xs).
Proof. apply (StronglySorted_merge_sort _). Qed.

Lemma sorted_set_NoDup xs : NoDup (sorted_set xs).
Proof.
  unfold sorted_set. rewrite merge_sort_Permutation. apply NoDup_elements.
Qed.

End SortedSet.

(** ** Zero-hours drain *)
Section Drain.
Import PyStr LlmModels Agents.

Lemma drain_foldl cases acc (S : gset string) :
  foldl drain_step (acc, S) cases
  = (acc ++ List.filter has_hours cases,
     list_to_set (flat_map moved_code cases) ∪ S).
Proof.
  revert acc S. induction cases as [|c cases IH]; intros acc S; simpl.
  - rewrite app_nil_r. f_equal. set_solver.
  - unfold has_hours, moved_code at 1. destruct (no_hours c) eqn:Hc; simpl.
    + destruct (validatedClientCaseNumber c) as [code|].
      * destruct (truthy code); rewrite IH; f_equal; set_solver.
      * rewrite IH. f_equal.
    + rewrite IH, <- app_assoc. simpl. f_equal. 
Qed.

Lemma post_process_eq lines :
  _post_process_line_items lines
  = {| li_clientCases := List.filter has_hours (li_clientCases lines);
       li_clientCasesNoActivity :=
         merge_sort String.le
           (elements (list_to_set (flat_map moved_code (li_clientCases lines))
                      ∪ list_to_set (li_clientCasesNoActivity lines) : gset string)) |}.
Proof. unfold _post_process_line_items. by rewrite drain_foldl. Qed.

Lemma elem_of_moved_code code case :
  code ∈ moved_code case
  ↔ no_hours case = true ∧ validatedClientCaseNumber case = Some code ∧ code ≠ "".
Proof.
  unfold moved_code, truthy. destruct (no_hours case); [|set_solver].
  destruct (validatedClientCaseNumber case) as [c|]; [|set_solver].
  destruct (String.eqb_spec c ""); simpl; [set_solver|].
  rewrite list_elem_of_singleton. naive_solver.
Qed.

Lemma has_hours_duration case :
  has_hours case = true ↔ ∃ d, durationHours case = Some d ∧ ¬ (d == 0)%Q.
Proof.
  unfold has_hours, no_hours. destruct (durationHours case) as [d|]; simpl.
  - rewrite negb_true_iff, <- not_true_iff_false, Qeq_bool_iff. naive_solver.
  - naive_solver.
Qed.

End Drain.

(** ** The final record *)
Section FinalRecord.
Import PyStr LlmModels Utils Agents.

Lemma correct_case_duration cmap case :
  durationHours (correct_case cmap case) = durationHours case.
Proof.
  unfold correct_case. destruct (validatedClientCaseNumber case) as [raw|]; [|done].
  destruct (cmap !! raw) as [corrected|]; [|done].
  by destruct (negb (raw =? corrected)%string).
Qed.

Lemma case_allowed_iff (allowed_set : gset string) case :
  case_allowed allowed_set case = true
  ↔ ∃ code, validatedClientCaseNumber case = Some code ∧ code ∈ allowed_set.
Proof.
  unfold case_allowed. destruct (validatedClientCaseNumber case) as [code|].
  - rewrite bool_decide_eq_true. naive_solver.
  - naive_solver.
Qed.

(** What [enforce_allowed_client_cases] keeps: exactly the entries whose
    code is in the allow-list. *)
Lemma enforce_allowed_spec result allowed :
  (∀ case, case ∈ clientCases (enforce_allowed_client_cases result allowed)
           ↔ case ∈ clientCases result
             ∧ ∃ code, validatedClientCaseNumber case = Some code ∧ code ∈ allowed)
  ∧ (∀ code, code ∈ clientCasesNoActivity (enforce_allowed_client_cases result allowed)
             ↔ code ∈ clientCasesNoActivity result ∧ code ∈ allowed).
Proof.
  unfold enforce_allowed_client_cases; simpl. split.
  - intros case. rewrite !list_elem_of_In, filter_In, case_allowed_iff.
    setoid_rewrite elem_of_list_to_set. by setoid_rewrite list_elem_of_In.
  - intros code. rewrite elem_of_sorted_set, !list_elem_of_In, filter_In.
    rewrite bool_decide_eq_true, elem_of_list_to_set, list_elem_of_In. done.
Qed.

Lemma process_invoice_eq w invoice_data :
  process_invoice w invoice_data
  = enforce_allowed_client_cases
      (apply_client_case_corrections
         (aggregated w) (default ∅ (correction_map invoice_data)))
      (valid_allowed_cases invoice_data).
Proof. reflexivity. Qed.

(** C1. The final record of every orchestrated invoice holds validated
    codes only: each entry of [clientCases] has its validated code in the
    valid allow-list, each member of [clientCasesNoActivity] is in it, and
    the entries of the corrected record that are kept are exactly those
    whose code is in the allow-list (all others are dropped from both
    lists). *)
Theorem final_record_only_allowed_codes (w : World) (invoice_data : InvoiceData) :
  let allowed := valid_allowed_cases invoice_data in
  let corrected :=
    apply_client_case_corrections
      (aggregated w) (default ∅ (correction_map invoice_data)) in
  let final := process_invoice w invoice_data in
  (∀ case, case ∈ clientCases final →
           ∃ code, validatedClientCaseNumber case = Some code ∧ code ∈ allowed)
  ∧ (∀ code, code ∈ clientCasesNoActivity final → code ∈ allowed)
  ∧ (∀ case, case ∈ clientCases final
             ↔ case ∈ clientCases corrected
               ∧ ∃ code, validatedClientCaseNumber case = Some code ∧ code ∈ allowed)
  ∧ (∀ code, code ∈ clientCasesNoActivity final
             ↔ code ∈ clientCasesNoActivity corrected ∧ code ∈ allowed).
Proof.
  intros allowed corrected final. subst final. rewrite process_invoice_eq.
  fold allowed corrected.
  destruct (enforce_allowed_spec corrected allowed) as [Hactive Hidle].
  split; [|split; [|split]].
  - intros case Hc. by apply Hactive in Hc as [_ ?].
  - intros code Hc. by apply Hidle in Hc as [_ ?].
  - exact Hactive.
  - exact Hidle.
Qed.

(** The drain as first stated fails on two counts: a drained line without a
    code is not moved to the no-activity list, and a line with a negative
    duration stays active. *)
Lemma drain_not_strictly_positive :
  let out := _post_process_line_items lines_sample in
  ¬ (∀ case, case ∈ li_clientCases lines_sample → no_hours case = true →
             ∃ code, validatedClientCaseNumber case = Some code
                     ∧ code ∈ li_clientCasesNoActivity out)
  ∧ ¬ (∀ case, case ∈ li_clientCases out →
               ∃ d, durationHours case = Some d ∧ (0 < d)%Q).
Proof.
  split.
  - intros H. destruct (H line_without_code) as (code & Hc & Hin).
    + apply list_elem_of_here.
    + reflexivity.
    + vm_compute in Hin. by apply elem_of_nil in Hin.
  - intros H. destruct (H line_negative) as (d & Hd & Hpos).
    + vm_compute. apply list_elem_of_here.
    + injection Hd as <-. by vm_compute in Hpos.
Qed.

(** C4, amended. Post-processing removes from the active list every line
    whose [durationHours] is null or 0 and adds its validated code to
    [clientCasesNoActivity] when that code is non-empty; the active list
    keeps, in order, exactly the lines whose duration is neither null nor 0;
    hence no final record has an active entry whose duration is null or
    0. *)
Theorem zero_hours_drained :
  (∀ lines,
      let out := _post_process_line_items lines in
      li_clientCases out = List.filter has_hours (li_clientCases lines)
      ∧ (∀ code, code ∈ li_clientCasesNoActivity out
                 ↔ code ∈ li_clientCasesNoActivity lines
                   ∨ ∃ case, case ∈ li_clientCases lines ∧ no_hours case = true
                             ∧ validatedClientCaseNumber case = Some code
                             ∧ code ≠ "")
      ∧ (∀ case, case ∈ li_clientCases out →
                 ∃ d, durationHours case = Some d ∧ ¬ (d == 0)%Q))
  ∧ (∀ w invoice_data case,
        case ∈ clientCases (process_invoice w invoice_data) →
        ∃ d, durationHours case = Some d ∧ ¬ (d == 0)%Q).
Proof.
  assert (Hout : ∀ lines case,
             case ∈ li_clientCases (_post_process_line_items lines) →
             ∃ d, durationHours case = Some d ∧ ¬ (d == 0)%Q).
  { intros lines case. rewrite post_process_eq; simpl.
    rewrite list_elem_of_In, filter_In. intros [_ H].
    by apply has_hours_duration. }
  split.
  - intros lines out. subst out. split; [|split].
    + by rewrite post_process_eq.
    + intros code. rewrite post_process_eq; simpl.
      rewrite elem_of_sorted_elements, elem_of_union, !elem_of_list_to_set.
      rewrite list_elem_of_In, in_flat_map.
      setoid_rewrite <- list_elem_of_In.
      setoid_rewrite elem_of_moved_code. naive_solver.
    + apply Hout.
  - intros w invoice_data case.
    rewrite process_invoice_eq.
    intros Hin. apply (proj1 (enforce_allowed_spec _ _)) in Hin as [Hin _].
    simpl in Hin. change (map ?f ?l) with (f <$> l) in Hin.
    apply list_elem_of_fmap in Hin as (case0 & -> & Hin).
    rewrite correct_case_duration.
    destruct (fst (_run_agent (lines_agent w) default_max_retries)) as [l|];
      simpl in Hin; [by eapply Hout|].
    by apply elem_of_nil in Hin.
Qed.

(** C10. A line with null or zero hours and an empty or null validated code
    is removed entirely by post-processing: it is not in the active list,
    the result is the one obtained without the line, and its code does not
    enter [clientCasesNoActivity] (an empty code is listed only if the
    agent's own no-activity list already held it). *)
Theorem codeless_idle_line_removed
    (before after : list ClientCase) (idle : list string) (line : ClientCase) :
  no_hours line = true →
  truthy_opt (validatedClientCaseNumber line) = false →
  (let out :=
     _post_process_line_items
       {| li_clientCases := before ++ line :: after;
          li_clientCasesNoActivity := idle |} in
   (line ∉ li_clientCases out)
   ∧ out = _post_process_line_items
             {| li_clientCases := before ++ after; li_clientCasesNoActivity := idle |}
   ∧ (∀ code, validatedClientCaseNumber line = Some code →
              code ∉ idle → code ∉ li_clientCasesNoActivity out)).
Proof.
  intros Hidle Hcode out. subst out.
  assert (Hmoved : moved_code line = []).
  { unfold moved_code. rewrite Hidle. unfold truthy_opt in Hcode.
    destruct (validatedClientCaseNumber line); [by rewrite Hcode|done]. }
  assert (Hhours : has_hours line = false) by (unfold has_hours; by rewrite Hidle).
  rewrite !post_process_eq; simpl. split; [|split].
  - rewrite list_elem_of_In, filter_In. rewrite Hhours. naive_solver.
  - rewrite !List.filter_app, !flat_map_app; simpl. by rewrite Hhours, Hmoved.
  - intros code Hline Hnot.
    rewrite elem_of_sorted_elements, elem_of_union, !elem_of_list_to_set.
    rewrite list_elem_of_In, in_flat_map.
    intros [(case & Hin & Hm)|?]; [|done].
    apply list_elem_of_In, elem_of_moved_code in Hm as (_ & _ & Hne).
    unfold truthy_opt in Hcode. rewrite Hline in Hcode.
    unfold truthy in Hcode. apply negb_false_iff, String.eqb_eq in Hcode. done.
Qed.

End FinalRecord.

(** ** The resilience wrapper *)
Section Retry.
Import Agents.
Context {T : Type} (body : Z → string + T) (max_retries : Z).

Lemma run_from_transient (k : nat) :
  ∀ (j : Z) (rem : nat),
    (∀ i, (j ≤ i < j + Z.of_nat k) → transient_at body i) →
    j + Z.of_nat k ≤ max_retries →
    run_from body max_retries (k + rem) j
    = (fst (run_from body max_retries rem (j + Z.of_nat k)),
       backoff_from j k ++ snd (run_from body max_retries rem (j + Z.of_nat k))).
Proof.
  induction k as [|k IH]; intros j rem Htr Hle.
  - simpl. rewrite Z.add_0_r. by destruct (run_from _ _ _ _).
  - change (S k + rem)%nat with (S (k + rem)). cbn [run_from].
    destruct (Htr j ltac:(lia)) as (e & -> & ->).
    assert ((j <? max_retries) = true) as -> by (apply Z.ltb_lt; lia).
    cbn [andb]. rewrite (IH (j + 1) rem).
    + replace (j + 1 + Z.of_nat k) with (j + Z.of_nat (S k)) by lia. done.
    + intros i Hi. apply Htr. lia.
    + lia.
Qed.

(** The wrapper along the test of the code, which looks for "503",
    "overloaded", "429" or "unavailable" anywhere in the lower-cased message
    of the exception.  After [k <= max_retries] failures that pass the
    test, each followed by a wait of [2 * 2 ^ attempt] seconds, the wrapper
    returns the value of a successful attempt; it returns [None] at once on
    a failure whose message fails the test; and it returns [None] when the
    failure after [max_retries] retries passes the test again. *)
Lemma run_agent_backoff (k : nat) :
  Z.of_nat k ≤ max_retries →
  (∀ i, (0 ≤ i < Z.of_nat k) → transient_at body i) →
  (∀ v, body (Z.of_nat k) = inr v →
        _run_agent body max_retries
        = (Some v, backoff_from 0 k ++ [Call (Z.of_nat k)]))
  ∧ (∀ e, body (Z.of_nat k) = inl e → is_overload e = false →
          _run_agent body max_retries
          = (None, backoff_from 0 k ++ [Call (Z.of_nat k); LogError (Z.of_nat k)]))
  ∧ (∀ e, body (Z.of_nat k) = inl e → is_overload e = true →
          Z.of_nat k = max_retries →
          _run_agent body max_retries
          = (None, backoff_from 0 k ++ [Call (Z.of_nat k); LogGiveUp])).
Proof.
  intros Hk Htr. unfold _run_agent.
  replace (Z.to_nat (max_retries + 1))
    with (k + S (Z.to_nat (max_retries - Z.of_nat k)))%nat by lia.
  rewrite run_from_transient by (try done; lia).
  rewrite Z.add_0_l. cbn [run_from]. split; [|split].
  - intros v ->. done.
  - intros e -> ->. done.
  - intros e -> -> Hmax.
    assert ((Z.of_nat k <? max_retries) = false) as -> by (apply Z.ltb_ge; lia).
    replace (Z.to_nat (max_retries - Z.of_nat k)) with 0%nat by lia.
    done.
Qed.

End Retry.

Section RetryExamples.
Import Agents.

Lemma run_agent_backoff_witness :
  _run_agent flaky default_max_retries
  = (Some 7%nat, [Call 0; Sleep 2; Call 1; Sleep 4; Call 2]).
Proof.
  refine (proj1 (run_agent_backoff flaky default_max_retries 2 _ _) 7%nat _).
  - vm_compute. congruence.
  - intros i Hi. exists "503 UNAVAILABLE: the model is overloaded". 
    assert (i = 0 ∨ i = 1) as [-> | ->] by lia; by vm_compute.
  - reflexivity.
Defined.

Example run_agent_gives_up :
  _run_agent (λ _ : Z, inl "429 Too Many Requests" : string + nat) default_max_retries
  = (None, [Call 0; Sleep 2; Call 1; Sleep 4; Call 2; Sleep 8; Call 3; LogGiveUp]).
Proof. reflexivity. Qed.

Example run_agent_stops_at_once :
  _run_agent (λ _ : Z, inl "1 validation error for HeaderResult" : string + nat)
             default_max_retries
  = (None, [Call 0; LogError 0]).
Proof. reflexivity. Qed.

(** C7, on the code. The header agent answers with [kvkNumber] as the
    number 84750312 and validation against the schema fails at every
    attempt, a failure that is not transient.  The digits 503 of the quoted
    input are found in the message, so the wrapper takes the failure for an
    overload: it runs the agent four times and waits 2, 4 and 8 seconds
    before it gives up, where a failure that is not transient is to return
    [None] at once after the first attempt. *)
Theorem validation_failure_is_retried :
  is_overload validation_message = true
  ∧ _run_agent invalid_answer default_max_retries
    = (None, [Call 0; Sleep 2; Call 1; Sleep 4; Call 2; Sleep 8; Call 3; LogGiveUp])
  ∧ _run_agent invalid_answer default_max_retries ≠ (None, [Call 0; LogError 0])
  ∧ calls (snd (_run_agent invalid_answer default_max_retries)) = 4%nat
  ∧ slept (snd (_run_agent invalid_answer default_max_retries)) = 14.
Proof. vm_compute. repeat split; congruence. Qed.

End RetryExamples.

(** ** The self-correction ladder and a complete run *)
Section Ladder.
Import PyStr LlmModels Utils Agents.

Example sample_final_cases :
  clientCases sample_final
  = [ {| validatedClientCaseNumber := Some "JN16-I21-284";
         rawClientCaseNumber := Some "JN16-121-284";
         date := None; durationHours := Some (3 # 2)%Q |} ]
  ∧ clientCasesNoActivity sample_final = ["JN16-I21-285"].
Proof. by vm_compute. Qed.

(** What Tier 2 leaves alone: the three descriptive fields always, and
    each number for which the fallback answer has no value. *)
Lemma tier2_merge_frame new_header_res h :
  let h' := tier2_merge new_header_res h in
  supplierName h' = supplierName h
  ∧ invoiceNumber h' = invoiceNumber h
  ∧ invoiceDate h' = invoiceDate h
  ∧ (kvkNumber h' = kvkNumber h
     ∨ ∃ new, new_header_res = Some new
              ∧ truthy_opt (kvkNumber (hr_invoiceHeader new)) = true
              ∧ kvkNumber h' = kvkNumber (hr_invoiceHeader new))
  ∧ (vatNumber h' = vatNumber h
     ∨ ∃ new, new_header_res = Some new
              ∧ truthy_opt (vatNumber (hr_invoiceHeader new)) = true
              ∧ vatNumber h' = vatNumber (hr_invoiceHeader new)).
Proof.
  destruct new_header_res as [new|]; simpl; [|tauto].
  destruct (truthy_opt (kvkNumber (hr_invoiceHeader new))) eqn:Hk;
    destruct (truthy_opt (vatNumber (hr_invoiceHeader new))) eqn:Hv; simpl;
    repeat split; eauto 6.
Qed.

(** C5, evaluated on the code. Tier 2 runs because the VAT number is still
    missing, and the chamber-of-commerce number, known before Tier 2, is
    replaced by the value of the fallback answer. *)
Theorem tier2_overwrites_known_number :
  let before := hr_invoiceHeader header_first in
  let after := invoiceHeader sample_final in
  tier1 (extract_header_fields sample_world (ocr_text sample_world)) before = before
  ∧ tier2_needed before = true
  ∧ kvkNumber before = Some "84726180"
  ∧ after = tier2_merge (Some header_fallback) before
  ∧ kvkNumber after = Some "11111111"
  ∧ vatNumber after = Some "NL863334647B01".
Proof. by vm_compute. Qed.

End Ladder.

(** ** Amount parsing *)
Section Amounts.
Import PyStr RegexTools.

Lemma app_cons a s1 s2 : String a s1 +:+ s2 = String a (s1 +:+ s2).
Proof. reflexivity. Qed.



Lemma len_app s1 s2 : len (s1 +:+ s2) = (len s1 + len s2)%nat.
Proof.
  unfold len. induction s1 as [|a s1 IH]; [done|].
  rewrite app_cons. simpl. lia.
Qed.

Lemma contains_char_cons c a s :
  contains_char c (String a s) = Ascii.eqb c a || contains_char c s.
Proof. reflexivity. Qed.




Lemma replace_char_removes c s : contains_char c (replace_char c "" s) = false.
Proof.
  induction s as [|a s IH]; [done|]. simpl.
  destruct (Ascii.eqb a c) eqn:Ha; [done|].
  rewrite contains_char_cons, Ascii.eqb_sym, Ha. done.
Qed.

(** *** [rindex] *)








(** *** [split] *)


Lemma join_rev_chars s : join (rev (rev (chars s))) = s.
Proof. by rewrite rev_involutive, join_chars. Qed.






(** *** The separator rule *)





(** The parser amount by amount: the amounts are handled one at a time,
    in order, and values that [float_eqb] equates are kept once. *)
Lemma parse_amounts_each {F : Type} (float : string → option F)
    (float_eqb : F → F → bool) (matches : list string) :
  _parse_amounts float float_eqb matches
  = dedupe float_eqb []
      (flat_map (λ amount, if truthy amount
                           then from_option (converted float) [] (clean_amount amount)
                           else []) matches).
Proof.
  unfold _parse_amounts. f_equal.
  set (step := λ (parsed : list F) (amount : string),
         if negb (truthy amount) then parsed
         else match parse_amount float amount with
              | Some v => parsed ++ [v]
              | None => parsed
              end).
  set (each := λ amount : string,
         if truthy amount
         then from_option (converted float) [] (clean_amount amount)
         else []).
  assert (Hstep : ∀ acc amount, step acc amount = acc ++ each amount).
  { intros acc amount. unfold step, each, parse_amount, converted.
    destruct (truthy amount); cbn [negb]; [|by rewrite app_nil_r].
    destruct (clean_amount amount) as [resolved|]; cbn [mbind option_bind from_option];
      [|by rewrite app_nil_r].
    destruct (float resolved); [done|by rewrite app_nil_r]. }
  assert (Hall : ∀ acc, foldl step acc matches = acc ++ flat_map each matches).
  { induction matches as [|amount matches IH]; intros acc; cbn [foldl flat_map].
    - by rewrite app_nil_r.
    - by rewrite IH, Hstep, app_assoc. }
  apply (Hall []).
Qed.




(** The values that reach the result list under the decimal reading of
    [float]: equal values are kept once, amounts that fail are skipped. *)
Example parse_amounts_values :
  _parse_amounts py_float Qeq_bool
                 ["1.234,56"; "1,234.56"; "12,34"; "1,234"; "1,5"; "1.2.3"; ""]
  = [(123456 # 100)%Q; (1234 # 100)%Q; inject_Z 1234; inject_Z 15].
Proof. reflexivity. Qed.

End Amounts.

(** ** The theorems at the sample run *)
Section SampleRun.
Import PyStr LlmModels Utils Agents.

Lemma final_record_only_allowed_codes_witness :
  ∃ code,
    validatedClientCaseNumber
      {| validatedClientCaseNumber := Some "JN16-I21-284";
         rawClientCaseNumber := Some "JN16-121-284";
         date := None; durationHours := Some (3 # 2)%Q |} = Some code
    ∧ code ∈ valid_allowed_cases sample_invoice.
Proof.
  apply (proj1 (final_record_only_allowed_codes sample_world sample_invoice)).
  vm_compute. apply list_elem_of_here.
Defined.

Lemma zero_hours_drained_witness :
  ∃ d, durationHours (case_of "JN16-121-284" (3 # 2)) = Some d ∧ ¬ (d == 0)%Q.
Proof.
  apply (proj2 (proj2 (proj1 zero_hours_drained lines_first))).
  vm_compute. apply list_elem_of_here.
Defined.

Lemma codeless_idle_line_removed_witness :
  let out := _post_process_line_items lines_sample in
  (line_without_code ∉ li_clientCases out)
  ∧ out = _post_process_line_items
            {| li_clientCases := [line_negative]; li_clientCasesNoActivity := [] |}
  ∧ (∀ code, validatedClientCaseNumber line_without_code = Some code →
             code ∉ [] → code ∉ li_clientCasesNoActivity out).
Proof.
  apply (codeless_idle_line_removed [] [line_negative] [] line_without_code);
    reflexivity.
Defined.

End SampleRun.

(** * Further properties of the code *)

(** ** Loading the registry and matching against it *)
Section Registry.
Import PyStr ClientCaseMatcher.

Lemma truthy_iff s : truthy s = true ↔ s ≠ "".
Proof.
  unfold truthy. rewrite negb_true_iff.
  destruct (String.eqb_spec s ""); naive_solver.
Qed.

Lemma strip_chars_idem l : strip_chars (strip_chars l) = strip_chars l.
Proof. apply strip_chars_id, strip_chars_trimmed. Qed.

Lemma strip_idem s : strip (strip s) = strip s.
Proof. unfold strip. by rewrite chars_join, strip_chars_idem. Qed.

Lemma registry_of_single cell :
  registry_of [cell] = if truthy (strip cell) then [strip cell] else [].
Proof.
  unfold registry_of. change (strip <$> [cell]) with [strip cell].
  destruct (truthy (strip cell)) eqn:Ht.
  - apply truthy_iff in Ht. by rewrite filter_cons_True.
  - apply not_true_iff_false in Ht. rewrite truthy_iff in Ht.
    by rewrite filter_cons_False.
Qed.

Lemma bucket_add_row m cell k :
  bucket (add_row m cell) k
  = bucket m k ++ filter (λ c, canonical_case_number c = k) (registry_of [cell]).
Proof.
  rewrite registry_of_single. unfold add_row, bucket.
  destruct (truthy (strip cell)); cbn [negb index_by_canon].
  - destruct (decide (canonical_case_number (strip cell) = k)) as [<-|Hne].
    + rewrite lookup_insert_eq. cbn [default]. by rewrite filter_cons_True.
    + rewrite lookup_insert_ne by done. rewrite filter_cons_False by done.
      by rewrite app_nil_r.
  - by rewrite filter_nil, app_nil_r.
Qed.

Lemma valid_add_row m cell :
  valid_codes (add_row m cell) = list_to_set (registry_of [cell]) ∪ valid_codes m.
Proof.
  rewrite registry_of_single. unfold add_row.
  destruct (truthy (strip cell)); cbn [negb valid_codes list_to_set foldr].
  - set_solver.
  - set_solver.
Qed.

Lemma registry_of_cons cell cells :
  registry_of (cell :: cells) = registry_of [cell] ++ registry_of cells.
Proof. unfold registry_of. by rewrite <- filter_app. Qed.

Lemma load_from m cells :
  valid_codes (foldl add_row m cells) = list_to_set (registry_of cells) ∪ valid_codes m
  ∧ ∀ k, bucket (foldl add_row m cells) k
         = bucket m k ++ filter (λ c, canonical_case_number c = k) (registry_of cells).
Proof.
  revert m. induction cells as [|cell cells IH]; intros m; simpl.
  - split; [set_solver|]. intros k. by rewrite app_nil_r.
  - destruct (IH (add_row m cell)) as [Hv Hb]. split.
    + rewrite Hv, valid_add_row, (registry_of_cons cell cells), list_to_set_app_L.
      set_solver.
    + intros k. rewrite Hb, bucket_add_row, (registry_of_cons cell cells), filter_app.
      by rewrite app_assoc.
Qed.

(** X1. Loading a registry file yields an exact set holding the trimmed,
    non-empty cells of the code column, and a fuzzy index whose bucket for a
    canonical form lists, in row order and with repetitions, the registry
    codes that have this canonical form. *)
Theorem load_rows_index (cells : list string) :
  valid_codes (load_rows cells) = list_to_set (registry_of cells)
  ∧ ∀ k, bucket (load_rows cells) k
         = filter (λ c, canonical_case_number c = k) (registry_of cells).
Proof.
  unfold load_rows. destruct (load_from empty_index cells) as [Hv Hb]. split.
  - rewrite Hv. simpl. set_solver.
  - intros k. rewrite Hb. unfold bucket at 1. simpl. by rewrite lookup_empty.
Qed.

End Registry.

Section Matching.
Import PyStr ClientCaseMatcher.

(** The three outcomes of [match_] past the empty-code test, read off the
    bucket of the canonical form. *)
Lemma match_cases m code :
  let o := strip code in
  (o = "" ∧ match_status (match_ m code) = unknown
   ∧ candidates (match_ m code) = [] ∧ matched_code (match_ m code) = None)
  ∨ (o ≠ "" ∧ o ∈ valid_codes m ∧ match_status (match_ m code) = exact
     ∧ candidates (match_ m code) = [o] ∧ matched_code (match_ m code) = Some o
     ∧ match_confidence (match_ m code) = 1%Q)
  ∨ (o ≠ "" ∧ (o ∉ valid_codes m) ∧ bucket m (canonical_case_number o) = []
     ∧ match_status (match_ m code) = unknown
     ∧ candidates (match_ m code) = [] ∧ matched_code (match_ m code) = None)
  ∨ (o ≠ "" ∧ (o ∉ valid_codes m)
     ∧ (∃ c, bucket m (canonical_case_number o) = [c]
             ∧ candidates (match_ m code) = [c]
             ∧ matched_code (match_ m code) = Some c)
     ∧ match_status (match_ m code) = fuzzy_io_swap)
  ∨ (o ≠ "" ∧ (o ∉ valid_codes m)
     ∧ (2 ≤ length (bucket m (canonical_case_number o)))%nat
     ∧ candidates (match_ m code) = bucket m (canonical_case_number o)
     ∧ matched_code (match_ m code) = None
     ∧ match_status (match_ m code) = ambiguous_io_swap).
Proof.
  intros o. unfold match_, bucket. fold o.
  destruct (truthy o) eqn:Ht; cbn [negb].
  - apply truthy_iff in Ht. right.
    destruct (decide (o ∈ valid_codes m)) as [Hin|Hin];
      cbn [match_status candidates matched_code match_confidence]; [by left|].
    right. destruct (default [] (index_by_canon m !! canonical_case_number o))
      as [|c [|c' rest]] eqn:Hb;
      cbn [match_status candidates matched_code match_confidence].
    + by left.
    + right; left. repeat split; eauto.
    + right; right. repeat split; try done. cbn [length]. lia.
  - left. apply not_true_iff_false in Ht. rewrite truthy_iff in Ht.
    cbn [match_status candidates matched_code match_confidence].
    split; [|done]. by destruct (decide (o = "")).
Qed.

Lemma elem_of_registry_nonempty cells c : c ∈ registry_of cells → c ≠ "".
Proof. unfold registry_of. rewrite list_elem_of_filter. tauto. Qed.

Lemma elem_of_loaded_valid cells c :
  c ∈ valid_codes (load_rows cells) ↔ c ∈ registry_of cells.
Proof.
  unfold load_rows. rewrite (proj1 (load_from empty_index cells)). simpl.
  rewrite elem_of_union, elem_of_list_to_set. set_solver.
Qed.

Lemma elem_of_loaded_bucket cells k c :
  c ∈ bucket (load_rows cells) k
  ↔ c ∈ registry_of cells ∧ canonical_case_number c = k.
Proof.
  unfold load_rows. rewrite (proj2 (load_from empty_index cells)).
  unfold bucket at 1. simpl. rewrite lookup_empty. simpl.
  rewrite list_elem_of_filter. tauto.
Qed.

(** X2. Against a loaded registry a code is an exact match exactly when its
    trimmed form is one of the registry codes; the result then carries that
    code as matched code and only candidate, with confidence 1. *)
Theorem match_exact_iff (cells : list string) (code : string) :
  let r := match_ (load_rows cells) code in
  (match_status r = exact ↔ strip code ∈ registry_of cells)
  ∧ (match_status r = exact →
     original_code r = strip code ∧ matched_code r = Some (strip code)
     ∧ candidates r = [strip code] ∧ match_confidence r = 1%Q).
Proof.
  intros r. subst r.
  assert (Ho : original_code (match_ (load_rows cells) code) = strip code).
  { unfold match_. destruct (negb (truthy (strip code))); [done|].
    destruct (decide _); [done|]. by destruct (default [] _) as [|? [|? ?]]. }
  destruct (match_cases (load_rows cells) code)
    as [(He & -> & _)|[(Hne & Hin & -> & Hc & Hm & Hq)
       |[(Hne & Hin & _ & -> & _)|[(Hne & Hin & _ & ->)|(Hne & Hin & _ & _ & _ & ->)]]]];
    try (rewrite elem_of_loaded_valid in Hin).
  - split; [|done]. split; [done|]. intros Hin%elem_of_registry_nonempty. done.
  - done.
  - split; [|done]. split; done.
  - split; [|done]. split; done.
  - split; [|done]. split; done.
Qed.

(** X3. A fuzzy match against a loaded registry is sound: the matched code
    is a registry code, differs from the trimmed original, has the same
    canonical form, is the only candidate, and no other registry row has
    that canonical form. *)
Theorem match_fuzzy_sound (cells : list string) (code : string) :
  match_status (match_ (load_rows cells) code) = fuzzy_io_swap →
  ∃ matched,
    matched_code (match_ (load_rows cells) code) = Some matched
    ∧ candidates (match_ (load_rows cells) code) = [matched]
    ∧ matched ∈ registry_of cells
    ∧ matched ≠ strip code
    ∧ canonical_case_number matched = canonical_case_number (strip code)
    ∧ filter (λ c, canonical_case_number c = canonical_case_number (strip code))
             (registry_of cells) = [matched].
Proof.
  intros Hst.
  destruct (match_cases (load_rows cells) code)
    as [(_ & H & _)|[(_ & _ & H & _)
       |[(_ & _ & _ & H & _)|[(Hne & Hin & (c & Hb & Hc & Hm) & _)|(_ & _ & _ & _ & _ & H)]]]];
    try congruence.
  exists c. rewrite elem_of_loaded_valid in Hin.
  assert (Hcb : c ∈ bucket (load_rows cells) (canonical_case_number (strip code))).
  { rewrite Hb. apply list_elem_of_here. }
  apply elem_of_loaded_bucket in Hcb as [Hreg Hcanon].
  repeat split; try done.
  - intros ->. done.
  - rewrite <- Hb. unfold load_rows. rewrite (proj2 (load_from empty_index cells)).
    unfold bucket. cbn [empty_index index_by_canon]. by rewrite lookup_empty.
Qed.

(** X4. An ambiguous result against a loaded registry never picks a code:
    it has no matched code and at least two candidates, all of them registry
    rows with the canonical form of the original and none equal to it. *)
Theorem match_ambiguous_sound (cells : list string) (code : string) :
  match_status (match_ (load_rows cells) code) = ambiguous_io_swap →
  matched_code (match_ (load_rows cells) code) = None
  ∧ (2 ≤ length (candidates (match_ (load_rows cells) code)))%nat
  ∧ ∀ c, c ∈ candidates (match_ (load_rows cells) code) →
         c ∈ registry_of cells ∧ c ≠ strip code
         ∧ canonical_case_number c = canonical_case_number (strip code).
Proof.
  intros Hst.
  destruct (match_cases (load_rows cells) code)
    as [(_ & H & _)|[(_ & _ & H & _)
       |[(_ & _ & _ & H & _)|[(_ & _ & _ & H)|(Hne & Hin & Hlen & Hc & Hm & _)]]]];
    try congruence.
  rewrite elem_of_loaded_valid in Hin. rewrite Hc. repeat split; try done.
  - by apply elem_of_loaded_bucket in H as [? _].
  - intros ->. by apply elem_of_loaded_bucket in H as [? _].
  - by apply elem_of_loaded_bucket in H as [_ ?].
Qed.

(** X5. Against a loaded registry a code is unknown exactly when it is blank
    or no registry code shares its canonical form; in particular every code
    is unknown against an empty registry. *)
Theorem match_unknown_iff (cells : list string) (code : string) :
  (match_status (match_ (load_rows cells) code) = unknown
   ↔ strip code = ""
     ∨ ∀ c, c ∈ registry_of cells →
            canonical_case_number c ≠ canonical_case_number (strip code))
  ∧ match_status (match_ (load_rows []) code) = unknown.
Proof.
  assert (Hgen : ∀ cells,
    match_status (match_ (load_rows cells) code) = unknown
    ↔ strip code = ""
      ∨ ∀ c, c ∈ registry_of cells →
             canonical_case_number c ≠ canonical_case_number (strip code)).
  { clear cells. intros cells.
    destruct (match_cases (load_rows cells) code)
      as [(He & -> & _)|[(Hne & Hin & -> & _)
         |[(Hne & Hin & Hb & -> & _)|[(Hne & Hin & (c & Hb & _) & ->)
          |(Hne & Hin & Hlen & _ & _ & ->)]]]];
      try (rewrite elem_of_loaded_valid in Hin).
    - split; [by left|done].
    - split; [done|]. intros [?|H]; [done|]. by destruct (H _ Hin).
    - split; [|done]. intros _. right. intros c Hc Hcanon.
      assert (c ∈ bucket (load_rows cells) (canonical_case_number (strip code)))
        as Hcb by by apply elem_of_loaded_bucket.
      rewrite Hb in Hcb. by apply elem_of_nil in Hcb.
    - split; [done|]. intros [?|H]; [done|].
      assert (c ∈ bucket (load_rows cells) (canonical_case_number (strip code)))
        as Hcb by (rewrite Hb; apply list_elem_of_here).
      apply elem_of_loaded_bucket in Hcb as [Hreg Hcanon]. by destruct (H _ Hreg).
    - split; [done|]. intros [?|H]; [done|].
      destruct (bucket (load_rows cells) (canonical_case_number (strip code)))
        as [|c rest] eqn:Hb; [simpl in Hlen; lia|].
      assert (c ∈ bucket (load_rows cells) (canonical_case_number (strip code)))
        as Hcb by (rewrite Hb; apply list_elem_of_here).
      apply elem_of_loaded_bucket in Hcb as [Hreg Hcanon]. by destruct (H _ Hreg). }
  split; [apply Hgen|].
  apply Hgen. right. intros c Hc. by apply elem_of_nil in Hc.
Qed.

(** X6. Matching ignores blanks around the code: a code and its trimmed form
    give the same result, whose original code is the trimmed form. *)
Theorem match_ignores_blanks (m : ClientCaseMatcher.t) (code : string) :
  match_ m (strip code) = match_ m code
  ∧ original_code (match_ m code) = strip code.
Proof.
  split.
  - unfold match_. by rewrite strip_idem.
  - unfold match_. destruct (negb (truthy (strip code))); [done|].
    destruct (decide _); [done|]. by destruct (default [] _) as [|? [|? ?]].
Qed.

Lemma match_fuzzy_sound_witness :
  ∃ matched,
    matched_code (match_ (load_rows ["JN16-I21-284"; "JN16-I21-285"]) "JN16-121-284")
      = Some matched
    ∧ candidates (match_ (load_rows ["JN16-I21-284"; "JN16-I21-285"]) "JN16-121-284")
      = [matched]
    ∧ matched ∈ registry_of ["JN16-I21-284"; "JN16-I21-285"]
    ∧ matched ≠ strip "JN16-121-284"
    ∧ canonical_case_number matched = canonical_case_number (strip "JN16-121-284")
    ∧ filter (λ c, canonical_case_number c
                   = canonical_case_number (strip "JN16-121-284"))
             (registry_of ["JN16-I21-284"; "JN16-I21-285"]) = [matched].
Proof.
  apply (match_fuzzy_sound ["JN16-I21-284"; "JN16-I21-285"] "JN16-121-284").
  vm_compute. reflexivity.
Defined.

Lemma match_ambiguous_sound_witness :
  matched_code (match_ (load_rows ["IB12-I34-567"; "1B12-I34-567"]) "IB12-134-567") = None
  ∧ (2 ≤ length (candidates
                   (match_ (load_rows ["IB12-I34-567"; "1B12-I34-567"]) "IB12-134-567")))%nat
  ∧ ∀ c, c ∈ candidates
               (match_ (load_rows ["IB12-I34-567"; "1B12-I34-567"]) "IB12-134-567") →
         c ∈ registry_of ["IB12-I34-567"; "1B12-I34-567"] ∧ c ≠ strip "IB12-134-567"
         ∧ canonical_case_number c = canonical_case_number (strip "IB12-134-567").
Proof.
  apply (match_ambiguous_sound ["IB12-I34-567"; "1B12-I34-567"] "IB12-134-567").
  vm_compute. reflexivity.
Defined.

End Matching.

(** ** Shape of the canonical form *)
Section CanonicalShape.
Import PyStr ClientCaseMatcher.

Lemma upper_lower_char a : upper_char (lower_char a) = upper_char a.
Proof. by destruct a as [[] [] [] [] [] [] [] []]. Qed.

Lemma isspace_lower_char a : isspace (lower_char a) = isspace a.
Proof. by destruct a as [[] [] [] [] [] [] [] []]. Qed.

(** Stripping commutes with a character map that keeps blanks blank. *)
Lemma lstrip_chars_fmap (f : ascii → ascii) l :
  (∀ a, isspace (f a) = isspace a) →
  lstrip_chars (f <$> l) = f <$> lstrip_chars l.
Proof.
  intros Hf. induction l as [|a l IH]; simpl; [done|].
  rewrite Hf. by destruct (isspace a).
Qed.

Lemma strip_chars_fmap (f : ascii → ascii) l :
  (∀ a, isspace (f a) = isspace a) →
  strip_chars (f <$> l) = f <$> strip_chars l.
Proof.
  intros Hf. unfold strip_chars.
  by rewrite lstrip_chars_fmap, <- fmap_reverse, lstrip_chars_fmap, fmap_reverse.
Qed.

Lemma swap_at_lookup_ne l p i : i ≠ p → swap_at l p !! i = l !! i.
Proof.
  intros Hne. unfold swap_at. destruct (p <? length l)%nat; [|done].
  destruct (l !! p) as [[[] [] [] [] [] [] [] []]|];
    rewrite ?list_lookup_insert_ne by done; done.
Qed.

Lemma swaps_lookup_other ps l i : i ∉ ps → foldl swap_at l ps !! i = l !! i.
Proof.
  revert l. induction ps as [|p ps IH]; intros l Hi; simpl; [done|].
  apply not_elem_of_cons in Hi as [Hne Hi]. by rewrite IH, swap_at_lookup_ne.
Qed.

(** What one step does at its own position. *)
Lemma swap_at_lookup_eq l p :
  swap_at l p !! p
  = match l !! p with
    | Some "I"%char => Some "1"%char
    | Some "O"%char => Some "0"%char
    | other => other
    end.
Proof.
  unfold swap_at. destruct (p <? length l)%nat eqn:Hp.
  - apply Nat.ltb_lt in Hp.
    destruct (l !! p) as [[[] [] [] [] [] [] [] []]|] eqn:Hl;
      rewrite ?list_lookup_insert_eq by done; done.
  - apply Nat.ltb_ge in Hp. by rewrite (lookup_ge_None_2 l p) by lia.
Qed.

(** X7. The canonical form does not depend on blanks around the code and
    is unchanged when the code is upper-cased first; for a code of ASCII
    characters it is unchanged when the code is lower-cased first. *)
Theorem canonical_ignores_case_and_blanks (x : string) :
  canonical_case_number (upper x) = canonical_case_number x
  ∧ canonical_case_number (strip x) = canonical_case_number x
  ∧ (ascii_only x → canonical_case_number (lower x) = canonical_case_number x).
Proof.
  unfold canonical_case_number. split; [|split].
  - assert (upper (strip (upper x)) = upper (strip x)) as ->; [|done].
    unfold upper, strip. rewrite !chars_join. f_equal.
    change (map upper_char ?l) with (upper_char <$> l).
    rewrite strip_chars_fmap by apply isspace_upper_char.
    rewrite <- list_fmap_compose. apply list_fmap_ext.
    intros ? a _. apply upper_char_idem.
  - by rewrite strip_idem.
  - intros _.
    assert (upper (strip (lower x)) = upper (strip x)) as ->; [|done].
    unfold upper, lower, strip. rewrite !chars_join. f_equal.
    change (map ?f ?l) with (f <$> l).
    rewrite strip_chars_fmap by apply isspace_lower_char.
    rewrite <- list_fmap_compose. apply list_fmap_ext.
    intros ? a _. apply upper_lower_char.
Qed.

Lemma canonical_ignores_case_and_blanks_witness :
  canonical_case_number (lower " Jn16-I21-284 ") = canonical_case_number " Jn16-I21-284 ".
Proof.
  apply (proj2 (proj2 (canonical_ignores_case_and_blanks " Jn16-I21-284 "))).
  unfold ascii_only. vm_compute. repeat constructor.
Defined.

(** X8. The canonical form is trimmed and upper-case and as long as the
    trimmed, upper-cased code.  Below 11 characters it is the trimmed,
    upper-cased code itself; from 11 characters on it differs from it at
    positions 0, 1 and 5 only, where 'I' has become '1' and 'O' has become
    '0'. *)
Theorem canonical_shape (x : string) :
  let c := upper (strip x) in
  let y := canonical_case_number x in
  strip y = y ∧ upper y = y ∧ len y = len c
  ∧ ((len c < 11)%nat → y = c)
  ∧ ((11 ≤ len c)%nat →
     (∀ i : nat, i ≠ 0%nat → i ≠ 1%nat → i ≠ 5%nat → chars y !! i = chars c !! i)
     ∧ (∀ p : nat, p = 0%nat ∨ p = 1%nat ∨ p = 5%nat →
             chars y !! p = match chars c !! p with
                            | Some "I"%char => Some "1"%char
                            | Some "O"%char => Some "0"%char
                            | other => other
                            end)).
Proof.
  intros c y.
  set (l := map upper_char (strip_chars (chars x))).
  assert (Hc : c = join l).
  { unfold c, l, upper, strip. by rewrite chars_join. }
  assert (Ht : trimmed l) by apply trimmed_upper, strip_chars_trimmed.
  assert (Hu : map upper_char l = l) by apply map_upper_char_idem.
  assert (Hlen : len c = length (strip_chars (chars x))).
  { rewrite Hc, len_join. unfold l. by rewrite length_map. }
  assert (Hy : y = if (length l <? 11)%nat then join l
                   else join (foldl swap_at l letter_positions)).
  { unfold y, canonical_case_number. fold c. rewrite Hc, len_join, chars_join. done. }
  assert (Hy' : ∃ l', y = join l' ∧ trimmed l' ∧ map upper_char l' = l'
                      ∧ length l' = length l).
  { rewrite Hy. destruct (length l <? 11)%nat.
    - by exists l.
    - exists (foldl swap_at l letter_positions). split; [done|]. split; [|split].
      + eapply trimmed_same_spaces; [symmetry; apply swaps_spaces|done].
      + by apply swaps_upper.
      + apply swaps_length. }
  destruct Hy' as (l' & Hyl & Ht' & Hu' & Hl').
  split; [|split; [|split; [|split]]].
  - rewrite Hyl. unfold strip. by rewrite chars_join, strip_chars_id.
  - rewrite Hyl. unfold upper. by rewrite chars_join, Hu'.
  - by rewrite Hyl, Hc, !len_join.
  - intros Hshort. rewrite Hy, Hc.
    rewrite Hc, len_join in Hshort.
    by apply Nat.ltb_lt in Hshort as ->.
  - intros Hlong. rewrite Hc, len_join in Hlong.
    apply Nat.ltb_ge in Hlong. rewrite Hy, Hlong, Hc, !chars_join.
    split.
    + intros i H0 H1 H5. apply swaps_lookup_other. unfold letter_positions.
      rewrite !not_elem_of_cons. repeat split; [done..|apply not_elem_of_nil].
    + intros p Hp. unfold letter_positions. simpl.
      destruct Hp as [->|[->| ->]].
      * rewrite !swap_at_lookup_ne by lia. apply swap_at_lookup_eq.
      * rewrite swap_at_lookup_ne by lia. rewrite swap_at_lookup_eq.
        by rewrite swap_at_lookup_ne by lia.
      * rewrite swap_at_lookup_eq. by rewrite !swap_at_lookup_ne by lia.
Qed.

Lemma canonical_shape_witness :
  chars (canonical_case_number "  io16-o21-284 ") !! 0%nat = Some "1"%char
  ∧ canonical_case_number "io-16" = "IO-16".
Proof.
  split.
  - destruct (canonical_shape "  io16-o21-284 ") as (_ & _ & _ & _ & H).
    destruct H as [_ Hp]; [vm_compute; lia|].
    rewrite (Hp 0%nat); [reflexivity|by left].
  - apply (proj1 (proj2 (proj2 (proj2 (canonical_shape "io-16"))))).
    vm_compute. lia.
Defined.

End CanonicalShape.

(** ** Bounds and outcomes of the resilience wrapper *)
Section WrapperBounds.
Import Agents.
Context {T : Type} (body : Z → string + T) (max_retries : Z).

Lemma calls_cons_call a tr : calls (Call a :: tr) = S (calls tr).
Proof. reflexivity. Qed.

Lemma calls_cons_sleep w tr : calls (Sleep w :: tr) = calls tr.
Proof. reflexivity. Qed.

Lemma wait_budget_nonneg a : 0 ≤ a → 0 ≤ wait_budget max_retries a.
Proof.
  intros Ha. unfold wait_budget. destruct (a <? max_retries) eqn:Hlt; [|lia].
  apply Z.ltb_lt in Hlt.
  assert (2 ^ a ≤ 2 ^ max_retries) by (apply Z.pow_le_mono_r; lia). lia.
Qed.

Lemma wait_budget_step a :
  0 ≤ a → a < max_retries → 2 * 2 ^ a + wait_budget max_retries (a + 1) = wait_budget max_retries a.
Proof.
  intros Ha Hlt. unfold wait_budget.
  assert ((a <? max_retries) = true) as -> by by apply Z.ltb_lt.
  rewrite Z.pow_add_r by lia. change (2 ^ 1) with 2.
  destruct (a + 1 <? max_retries) eqn:Hlt'; [lia|].
  apply Z.ltb_ge in Hlt'. assert (max_retries = a + 1) as -> by lia.
  rewrite Z.pow_add_r by lia. change (2 ^ 1) with 2. lia.
Qed.

Lemma wait_budget_mono a : 0 ≤ a → wait_budget max_retries (a + 1) ≤ wait_budget max_retries a.
Proof.
  intros Ha. destruct (decide (a < max_retries)) as [Hlt|Hge].
  - rewrite <- (wait_budget_step a) by done.
    assert (0 < 2 ^ a) by (apply Z.pow_pos_nonneg; lia). lia.
  - unfold wait_budget.
    assert ((a <? max_retries) = false) as -> by (apply Z.ltb_ge; lia).
    assert ((a + 1 <? max_retries) = false) as -> by (apply Z.ltb_ge; lia). done.
Qed.

Lemma run_from_bounded (remaining : nat) :
  ∀ a, 0 ≤ a →
    (calls (snd (run_from body max_retries remaining a)) ≤ remaining)%nat
    ∧ 0 ≤ slept (snd (run_from body max_retries remaining a)) ≤ wait_budget max_retries a.
Proof.
  induction remaining as [|n IH]; intros a Ha; cbn [run_from].
  - simpl. split; [unfold calls; simpl; lia|]. pose proof (wait_budget_nonneg a Ha). lia.
  - pose proof (wait_budget_nonneg a Ha) as Hb.
    destruct (IH (a + 1) ltac:(lia)) as [Hc Hs].
    destruct (body a) as [e|v]; simpl.
    + destruct (is_overload e); simpl.
      * destruct (a <? max_retries) eqn:Hlt; simpl.
        -- apply Z.ltb_lt in Hlt.
           destruct (run_from body max_retries n (a + 1)) as [r tr]; simpl in *.
           rewrite calls_cons_call, calls_cons_sleep.
           pose proof (wait_budget_step a Ha Hlt).
           assert (0 < 2 ^ a) by (apply Z.pow_pos_nonneg; lia).
           split; lia.
        -- destruct (run_from body max_retries n (a + 1)) as [r tr]; simpl in *.
           rewrite calls_cons_call.
           pose proof (wait_budget_mono a Ha). split; lia.
      * rewrite calls_cons_call. unfold calls; simpl. split; lia.
    + rewrite calls_cons_call. unfold calls; simpl. split; lia.
Qed.

(** X9. Whatever the agent does, one call of the wrapper runs it at most
    [max_retries + 1] times (not at all for a negative [max_retries]) and
    waits at most [2 * (2 ^ max_retries - 1)] seconds in total. *)
Theorem run_agent_bounded :
  (calls (snd (_run_agent body max_retries)) ≤ Z.to_nat (max_retries + 1))%nat
  ∧ 0 ≤ slept (snd (_run_agent body max_retries))
  ∧ (0 ≤ max_retries →
     slept (snd (_run_agent body max_retries)) ≤ 2 * (2 ^ max_retries - 1)).
Proof.
  unfold _run_agent.
  destruct (run_from_bounded (Z.to_nat (max_retries + 1)) 0 ltac:(lia)) as [Hc [Hs0 Hs]].
  split; [done|]. split; [done|]. intros Hmr.
  unfold wait_budget in Hs. destruct (0 <? max_retries) eqn:Hlt.
  - change (2 ^ 0) with 1 in Hs. lia.
  - apply Z.ltb_ge in Hlt. assert (max_retries = 0) as -> by lia.
    change (2 ^ 0) with 1. lia.
Qed.

Lemma run_from_some (remaining : nat) :
  ∀ a v, 0 ≤ a → Z.of_nat remaining + a = max_retries + 1 →
    fst (run_from body max_retries remaining a) = Some v →
    ∃ k : nat, a + Z.of_nat k ≤ max_retries
               ∧ body (a + Z.of_nat k) = inr v
               ∧ ∀ i, (a ≤ i < a + Z.of_nat k) → transient_at body i.
Proof.
  induction remaining as [|n IH]; intros a v Ha Hrem; cbn [run_from]; [done|].
  destruct (body a) as [e|v'] eqn:Hbody; simpl.
  - destruct (is_overload e) eqn:Ho; simpl; [|done].
    destruct (a <? max_retries) eqn:Hlt; simpl.
    + destruct (run_from body max_retries n (a + 1)) as [r tr] eqn:Hrun.
      simpl. intros ->.
      destruct (IH (a + 1) v ltac:(lia) ltac:(lia)) as (k & Hk & Hv & Htr).
      { by rewrite Hrun. }
      exists (S k). split; [lia|]. split.
      * by replace (a + Z.of_nat (S k)) with (a + 1 + Z.of_nat k) by lia.
      * intros i Hi. destruct (decide (i = a)) as [->|Hne].
        -- exists e. done.
        -- apply Htr. lia.
    + apply Z.ltb_ge in Hlt. assert (n = 0%nat) as -> by lia. done.
  - intros [= ->]. exists 0%nat. rewrite Z.add_0_r. split; [lia|]. split; [done|].
    intros i Hi. lia.
Qed.

(** X10. The wrapper returns a value exactly when some attempt [k] within
    the retry limit produced it and every earlier attempt failed with a
    transient error: a value is never made up, and never taken from an
    attempt that follows a non-transient failure. *)
Theorem run_agent_some_iff (v : T) :
  fst (_run_agent body max_retries) = Some v
  ↔ ∃ k : nat, Z.of_nat k ≤ max_retries
               ∧ body (Z.of_nat k) = inr v
               ∧ ∀ i, (0 ≤ i < Z.of_nat k) → transient_at body i.
Proof.
  split.
  - unfold _run_agent. intros Hv.
    destruct (decide (0 ≤ max_retries + 1)) as [Hmr|Hmr].
    + destruct (run_from_some (Z.to_nat (max_retries + 1)) 0 v) as (k & Hk & Hb & Htr);
        [lia|lia|done|].
      exists k. rewrite !Z.add_0_l in *. done.
    + replace (Z.to_nat (max_retries + 1)) with 0%nat in Hv by lia. done.
  - intros (k & Hk & Hb & Htr). unfold _run_agent.
    replace (Z.to_nat (max_retries + 1))
      with (k + S (Z.to_nat (max_retries - Z.of_nat k)))%nat by lia.
    rewrite (run_from_transient body max_retries k 0) by (try done; lia).
    rewrite Z.add_0_l. cbn [run_from]. by rewrite Hb.
Qed.

End WrapperBounds.

Section WrapperBoundsWitness.
Import Agents.

Lemma run_agent_bounded_witness :
  slept (snd (_run_agent flaky default_max_retries)) ≤ 14.
Proof.
  apply (proj2 (proj2 (run_agent_bounded flaky default_max_retries))).
  vm_compute. congruence.
Defined.

End WrapperBoundsWitness.

(** ** The self-correction ladder *)
Section LadderFrame.
Import PyStr LlmModels Agents.

Lemma tier1_descriptive rx h :
  supplierName (tier1 rx h) = supplierName h
  ∧ invoiceNumber (tier1 rx h) = invoiceNumber h
  ∧ invoiceDate (tier1 rx h) = invoiceDate h.
Proof.
  unfold tier1.
  destruct (truthy_opt (rx_kvkNumber rx) && negb (truthy_opt (kvkNumber h)));
    destruct (truthy_opt (rx_vatNumber rx) && negb (truthy_opt (vatNumber _)));
    done.
Qed.

(** X11. Tier 1 fills gaps only: a number that is present stays as it is, a
    missing number takes the regex value when the regex found one and stays
    missing otherwise, and the descriptive fields are never touched. *)
Theorem tier1_fills_gaps_only (rx : RegexHeader) (h : InvoiceHeader) :
  let h' := tier1 rx h in
  supplierName h' = supplierName h
  ∧ invoiceNumber h' = invoiceNumber h
  ∧ invoiceDate h' = invoiceDate h
  ∧ kvkNumber h' = (if truthy_opt (kvkNumber h) then kvkNumber h
                    else if truthy_opt (rx_kvkNumber rx) then rx_kvkNumber rx
                    else kvkNumber h)
  ∧ vatNumber h' = (if truthy_opt (vatNumber h) then vatNumber h
                    else if truthy_opt (rx_vatNumber rx) then rx_vatNumber rx
                    else vatNumber h).
Proof.
  unfold tier1.
  destruct (truthy_opt (kvkNumber h)) eqn:Hk;
    destruct (truthy_opt (vatNumber h)) eqn:Hv;
    destruct (truthy_opt (rx_kvkNumber rx)) eqn:Hrk;
    destruct (truthy_opt (rx_vatNumber rx)) eqn:Hrv;
    simpl; rewrite ?Hv; simpl; done.
Qed.

Lemma tier1_keeps_present rx h :
  (truthy_opt (kvkNumber h) = true → truthy_opt (kvkNumber (tier1 rx h)) = true)
  ∧ (truthy_opt (vatNumber h) = true → truthy_opt (vatNumber (tier1 rx h)) = true).
Proof.
  unfold tier1.
  destruct (truthy_opt (kvkNumber h)) eqn:Hk;
    destruct (truthy_opt (vatNumber h)) eqn:Hv;
    destruct (truthy_opt (rx_kvkNumber rx)) eqn:Hrk;
    destruct (truthy_opt (rx_vatNumber rx)) eqn:Hrv;
    simpl; rewrite ?Hv, ?Hk; simpl; rewrite ?Hk, ?Hv; done.
Qed.

Lemma tier2_keeps_present new h :
  (truthy_opt (kvkNumber h) = true → truthy_opt (kvkNumber (tier2_merge new h)) = true)
  ∧ (truthy_opt (vatNumber h) = true → truthy_opt (vatNumber (tier2_merge new h)) = true).
Proof.
  destruct new as [new|]; simpl; [|done].
  destruct (truthy_opt (kvkNumber (hr_invoiceHeader new))) eqn:Hk;
    destruct (truthy_opt (vatNumber (hr_invoiceHeader new))) eqn:Hv; simpl; done.
Qed.

(** X12. The ladder is a no-op whenever it cannot help: with both numbers
    present, with the source PDF missing, or with an empty OCR text, the
    header comes back unchanged and no fallback call is involved. *)
Theorem self_correct_noop (w : World) (h : InvoiceHeader) :
  (truthy_opt (kvkNumber h) = true ∧ truthy_opt (vatNumber h) = true)
  ∨ pdf_exists w = false ∨ ocr_text w = "" →
  self_correct w h = h.
Proof.
  unfold self_correct. intros [[-> ->]|[->| ->]]; simpl; [done| |].
  - by destruct (_ || _).
  - destruct (_ || _); [|done]. by destruct (pdf_exists w).
Qed.

Lemma self_correct_descriptive w h :
  supplierName (self_correct w h) = supplierName h
  ∧ invoiceNumber (self_correct w h) = invoiceNumber h
  ∧ invoiceDate (self_correct w h) = invoiceDate h.
Proof.
  unfold self_correct.
  destruct (_ || _); [|done]. destruct (pdf_exists w); [|done].
  destruct (truthy (ocr_text w)); [|done].
  set (rx := extract_header_fields w (ocr_text w)).
  destruct (tier1_descriptive rx h) as (Hs & Hn & Hd).
  destruct (tier2_needed (tier1 rx h)); [|done].
  destruct (tier2_merge_frame (fst (_run_agent (fallback_agent w) default_max_retries))
                              (tier1 rx h)) as (Hs' & Hn' & Hd' & _).
  simpl in *. by rewrite Hs', Hn', Hd'.
Qed.

(** X13. The ladder never touches supplier name, invoice number or invoice
    date, and never blanks a number: a chamber-of-commerce or VAT number
    that was present before is present afterwards. *)
Theorem self_correct_keeps (w : World) (h : InvoiceHeader) :
  let h' := self_correct w h in
  supplierName h' = supplierName h
  ∧ invoiceNumber h' = invoiceNumber h
  ∧ invoiceDate h' = invoiceDate h
  ∧ (truthy_opt (kvkNumber h) = true → truthy_opt (kvkNumber h') = true)
  ∧ (truthy_opt (vatNumber h) = true → truthy_opt (vatNumber h') = true).
Proof.
  unfold self_correct.
  destruct (_ || _); [|done]. destruct (pdf_exists w); [|done].
  destruct (truthy (ocr_text w)); [|done].
  set (rx := extract_header_fields w (ocr_text w)).
  destruct (tier1_descriptive rx h) as (Hs & Hn & Hd).
  destruct (tier1_keeps_present rx h) as [Hk Hv].
  destruct (tier2_needed (tier1 rx h)); [|done].
  set (new := fst (_run_agent (fallback_agent w) default_max_retries)).
  destruct (tier2_merge_frame new (tier1 rx h)) as (Hs' & Hn' & Hd' & _).
  destruct (tier2_keeps_present new (tier1 rx h)) as [Hk' Hv'].
  simpl. rewrite Hs', Hn', Hd'. repeat split; auto.
Qed.

(** X14. Tier 2 is skipped when Tier 1 completes the header: if the regex
    pass leaves both numbers present, the result is the Tier 1 header
    whatever the fallback agent would answer. *)
Theorem tier2_skipped_when_complete (w : World) (h : InvoiceHeader) :
  truthy_opt (kvkNumber h) = false ∨ truthy_opt (vatNumber h) = false →
  pdf_exists w = true → ocr_text w ≠ "" →
  tier2_needed (tier1 (extract_header_fields w (ocr_text w)) h) = false →
  self_correct w h = tier1 (extract_header_fields w (ocr_text w)) h
  ∧ truthy_opt (kvkNumber (self_correct w h)) = true
  ∧ truthy_opt (vatNumber (self_correct w h)) = true.
Proof.
  intros Hmiss Hpdf Hocr Hdone.
  assert (self_correct w h = tier1 (extract_header_fields w (ocr_text w)) h) as ->.
  { unfold self_correct. rewrite Hpdf, Hdone.
    apply truthy_iff in Hocr as ->.
    by destruct Hmiss as [-> | ->]; rewrite ?orb_true_r. }
  split; [done|]. unfold tier2_needed in Hdone.
  apply orb_false_elim in Hdone as [Hk Hv].
  by apply negb_false_iff in Hk, Hv.
Qed.

End LadderFrame.

Section LadderWitnesses.
Import PyStr LlmModels Agents.

Lemma self_correct_noop_witness :
  self_correct sample_world (hr_invoiceHeader header_fallback)
  = hr_invoiceHeader header_fallback.
Proof. apply self_correct_noop. left. split; reflexivity. Defined.

Lemma tier2_skipped_when_complete_witness :
  self_correct world_ocr_complete header_no_numbers
  = tier1 (extract_header_fields world_ocr_complete (ocr_text world_ocr_complete))
          header_no_numbers
  ∧ truthy_opt (kvkNumber (self_correct world_ocr_complete header_no_numbers)) = true
  ∧ truthy_opt (vatNumber (self_correct world_ocr_complete header_no_numbers)) = true.
Proof.
  apply tier2_skipped_when_complete.
  - left. reflexivity.
  - reflexivity.
  - discriminate.
  - reflexivity.
Defined.

End LadderWitnesses.

(** ** Shape of the orchestrator's result *)
Section Outcome.
Import PyStr LlmModels Utils Agents.

Lemma strictly_sorted_of (l : list string) :
  StronglySorted String.le l → NoDup l → strictly_sorted l.
Proof.
  unfold strictly_sorted. induction 1 as [|a l Hs IH Hall]; intros Hnd.
  - constructor.
  - apply NoDup_cons in Hnd as [Ha Hnd]. constructor; [by apply IH|].
    rewrite Forall_forall in *. intros b Hb. split; [by apply Hall|].
    intros ->. by apply Ha.
Qed.

Lemma sorted_elements_strict (S : gset string) :
  strictly_sorted (merge_sort String.le (elements S)).
Proof.
  apply strictly_sorted_of.
  - apply (StronglySorted_merge_sort _).
  - rewrite merge_sort_Permutation. apply NoDup_elements.
Qed.

Lemma sorted_elements_ext (S1 S2 : gset string) :
  (∀ x, x ∈ S1 ↔ x ∈ S2) →
  merge_sort String.le (elements S1) = merge_sort String.le (elements S2).
Proof. intros H. by assert (S1 = S2) as -> by set_solver. Qed.

Lemma sorted_set_ext xs ys : (∀ x, x ∈ xs ↔ x ∈ ys) → sorted_set xs = sorted_set ys.
Proof.
  intros H. unfold sorted_set. apply sorted_elements_ext.
  intros x. by rewrite !elem_of_list_to_set.
Qed.

Lemma sorted_set_nil : sorted_set [] = [].
Proof. unfold sorted_set. simpl. by rewrite elements_empty. Qed.

Lemma filter_filter_same {A} (f : A → bool) l :
  List.filter f (List.filter f l) = List.filter f l.
Proof.
  induction l as [|a l IH]; simpl; [done|].
  destruct (f a) eqn:Ha; simpl; rewrite ?Ha, IH; done.
Qed.

Lemma filter_all_true {A} (f : A → bool) l :
  (∀ x, x ∈ l → f x = true) → List.filter f l = l.
Proof.
  induction l as [|a l IH]; simpl; intros H; [done|].
  rewrite (H a) by apply list_elem_of_here. f_equal. apply IH.
  intros x Hx. apply H. by apply list_elem_of_further.
Qed.

(** X15. Every list of no-activity codes that the post-processing passes
    produce is strictly increasing, hence free of duplicates: after the
    drain, after the corrections, after the allow-list, and in the final
    record. *)
Theorem no_activity_strictly_sorted :
  (∀ lines, strictly_sorted (li_clientCasesNoActivity (_post_process_line_items lines)))
  ∧ (∀ result cmap,
        strictly_sorted (clientCasesNoActivity (apply_client_case_corrections result cmap)))
  ∧ (∀ result allowed,
        strictly_sorted (clientCasesNoActivity (enforce_allowed_client_cases result allowed)))
  ∧ (∀ w invoice_data,
        strictly_sorted (clientCasesNoActivity (process_invoice w invoice_data))).
Proof.
  split; [|split; [|split]].
  - intros lines. rewrite post_process_eq. apply sorted_elements_strict.
  - intros result cmap. apply sorted_elements_strict.
  - intros result allowed. apply sorted_elements_strict.
  - intros w invoice_data. rewrite process_invoice_eq. apply sorted_elements_strict.
Qed.

(** X16. A failed agent never aborts the invoice.  Without a line-items
    answer the final record has no active and no no-activity cases; without
    a header answer it is not a coaching invoice and its supplier name,
    invoice number and invoice date are absent. *)
Theorem failed_agents_give_neutral_record (w : World) (invoice_data : InvoiceData) :
  let final := process_invoice w invoice_data in
  (fst (_run_agent (lines_agent w) default_max_retries) = None →
   clientCases final = [] ∧ clientCasesNoActivity final = [])
  ∧ (fst (_run_agent (header_agent w) default_max_retries) = None →
     isCoachingInvoice final = false
     ∧ supplierName (invoiceHeader final) = None
     ∧ invoiceNumber (invoiceHeader final) = None
     ∧ invoiceDate (invoiceHeader final) = None).
Proof.
  intros final. subst final. rewrite process_invoice_eq. split.
  - intros Hl. unfold aggregated. rewrite Hl. simpl.
    by rewrite sorted_set_nil; simpl; rewrite sorted_set_nil.
  - intros Hh. unfold aggregated. rewrite Hh. simpl.
    pose proof (self_correct_descriptive w empty_header) as (Hs & Hn & Hd).
    by rewrite Hs, Hn, Hd.
Qed.

End Outcome.

Section OutcomeCases.
Import PyStr LlmModels Utils Agents.

Lemma correct_case_code cmap case raw :
  validatedClientCaseNumber case = Some raw →
  validatedClientCaseNumber (correct_case cmap case) = Some (default raw (cmap !! raw))
  ∧ (default raw (cmap !! raw) ≠ raw →
     rawClientCaseNumber (correct_case cmap case) = Some raw)
  ∧ (default raw (cmap !! raw) = raw → correct_case cmap case = case)
  ∧ date (correct_case cmap case) = date case.
Proof.
  intros Hraw. unfold correct_case. rewrite Hraw.
  destruct (cmap !! raw) as [v|]; simpl; [|done].
  destruct (String.eqb_spec raw v) as [->|Hne]; simpl; [done|].
  repeat split; done.
Qed.

(** X17. A line with hours survives to the final record whenever its code,
    translated by the correction map (or taken as it is when the map has no
    entry for it), is in the valid allow-list.  The surviving entry carries
    the translated code, keeps date and duration, and records the code the
    agent reported as raw code when the translation changed it. *)
Theorem allowed_line_survives
    (w : World) (invoice_data : InvoiceData) (lines : LineItemsResult)
    (case : ClientCase) (raw : string) :
  fst (_run_agent (lines_agent w) default_max_retries) = Some lines →
  case ∈ li_clientCases lines →
  has_hours case = true →
  validatedClientCaseNumber case = Some raw →
  default raw (default ∅ (correction_map invoice_data) !! raw)
    ∈ valid_allowed_cases invoice_data →
  let code := default raw (default ∅ (correction_map invoice_data) !! raw) in
  let kept := correct_case (default ∅ (correction_map invoice_data)) case in
  kept ∈ clientCases (process_invoice w invoice_data)
  ∧ validatedClientCaseNumber kept = Some code
  ∧ date kept = date case ∧ durationHours kept = durationHours case
  ∧ (code ≠ raw → rawClientCaseNumber kept = Some raw)
  ∧ (code = raw → kept = case).
Proof.
  intros Hl Hin Hh Hraw Hallowed code kept.
  destruct (correct_case_code (default ∅ (correction_map invoice_data)) case raw Hraw)
    as (Hv & Hr & Hid & Hd).
  split; [|subst kept code; by rewrite correct_case_duration].
  subst kept code. rewrite process_invoice_eq.
  apply (proj1 (enforce_allowed_spec _ _)). split; [|eauto].
  simpl. unfold aggregated. rewrite Hl. simpl.
  change (map ?f ?l) with (f <$> l). apply list_elem_of_fmap_2.
  rewrite post_process_eq. simpl.
  rewrite list_elem_of_In, filter_In, <- list_elem_of_In. done.
Qed.

(** X18. The zero-hours drain is idempotent: draining a drained answer
    changes nothing. *)
Theorem post_process_idempotent (lines : LineItemsResult) :
  _post_process_line_items (_post_process_line_items lines)
  = _post_process_line_items lines.
Proof.
  rewrite (post_process_eq (_post_process_line_items lines)).
  rewrite (post_process_eq lines). simpl.
  rewrite filter_filter_same. f_equal.
  apply sorted_elements_ext. intros x.
  rewrite elem_of_union, !elem_of_list_to_set, elem_of_sorted_elements.
  split; [|tauto]. intros [Hx|Hx]; [|done].
  apply list_elem_of_In, in_flat_map in Hx as (c & Hc & Hm).
  apply filter_In in Hc as [_ Hc]. unfold has_hours in Hc.
  unfold moved_code in Hm. apply negb_true_iff in Hc. rewrite Hc in Hm. done.
Qed.

(** X19. Allow-list enforcement is idempotent, keeps the order of the active
    cases, and never changes the header. *)
Theorem enforce_allowed_idempotent (result : InvoiceLLMResult) (allowed : list string) :
  enforce_allowed_client_cases (enforce_allowed_client_cases result allowed) allowed
  = enforce_allowed_client_cases result allowed
  ∧ sublist (clientCases (enforce_allowed_client_cases result allowed))
            (clientCases result)
  ∧ invoiceHeader (enforce_allowed_client_cases result allowed) = invoiceHeader result
  ∧ isCoachingInvoice (enforce_allowed_client_cases result allowed)
    = isCoachingInvoice result.
Proof.
  split; [|split; [|done]].
  - unfold enforce_allowed_client_cases. simpl. f_equal.
    + apply filter_filter_same.
    + apply sorted_set_ext. intros x.
      rewrite !list_elem_of_In, !filter_In, <- !list_elem_of_In.
      rewrite elem_of_sorted_set, list_elem_of_In, filter_In, <- list_elem_of_In. tauto.
  - simpl. induction (clientCases result) as [|c l IH]; simpl; [constructor|].
    destruct (case_allowed _ c); by constructor.
Qed.

Lemma allowed_line_survives_witness :
  let kept := correct_case (default ∅ (correction_map sample_invoice))
                           (case_of "JN16-121-284" (3 # 2)) in
  kept ∈ clientCases (process_invoice sample_world sample_invoice)
  ∧ validatedClientCaseNumber kept = Some "JN16-I21-284"
  ∧ date kept = None ∧ durationHours kept = Some (3 # 2)%Q
  ∧ ("JN16-I21-284" ≠ "JN16-121-284" → rawClientCaseNumber kept = Some "JN16-121-284")
  ∧ ("JN16-I21-284" = "JN16-121-284" → kept = case_of "JN16-121-284" (3 # 2)).
Proof.
  apply (allowed_line_survives sample_world sample_invoice lines_first
           (case_of "JN16-121-284" (3 # 2)) "JN16-121-284").
  - reflexivity.
  - apply list_elem_of_here.
  - reflexivity.
  - reflexivity.
  - vm_compute. apply list_elem_of_here.
Defined.

End OutcomeCases.

Section OutcomeWitnesses.
Import PyStr LlmModels Utils Agents.

Lemma self_correct_keeps_witness :
  truthy_opt (kvkNumber (self_correct sample_world (hr_invoiceHeader header_first))) = true.
Proof.
  apply (proj1 (proj2 (proj2 (proj2
           (self_correct_keeps sample_world (hr_invoiceHeader header_first)))))).
  reflexivity.
Defined.

Lemma failed_agents_give_neutral_record_witness :
  clientCases (process_invoice world_ocr_complete sample_invoice) = []
  ∧ clientCasesNoActivity (process_invoice world_ocr_complete sample_invoice) = [].
Proof.
  apply (proj1 (failed_agents_give_neutral_record world_ocr_complete sample_invoice)).
  reflexivity.
Defined.

End OutcomeWitnesses.

(** ** The invoice context *)
Section Context.
Import PyStr LlmModels ClientCaseMatcher Preprocessor Loader.

Lemma context_step_kept st item :
  context_step st item
  = match kept_item item with
    | Some (raw, matched) =>
        (st.1.1 ++ [raw], st.1.2 ++ [matched], <[ raw := matched ]> st.2)
    | None => st
    end.
Proof.
  destruct st as [[r v] c], item as [raw info]. unfold context_step, kept_item. simpl.
  destruct (matchedCode info) as [matched|]; [|done].
  by destruct (truthy matched && status_usable (matchStatus info)).
Qed.

Lemma build_from items st :
  foldl context_step st items
  = (st.1.1 ++ (omap kept_item items).*1,
     st.1.2 ++ (omap kept_item items).*2,
     foldl (λ c kv, <[ kv.1 := kv.2 ]> c) st.2 (omap kept_item items)).
Proof.
  revert st. induction items as [|item items IH]; intros [[r v] c].
  - simpl. by rewrite !app_nil_r.
  - cbn [foldl]. rewrite context_step_kept, IH. simpl.
    destruct (kept_item item) as [[raw matched]|]; simpl; [|done].
    by rewrite <- !app_assoc.
Qed.

Lemma build_allow_lists_eq items :
  build_allow_lists items
  = ((omap kept_item items).*1, (omap kept_item items).*2,
     foldl (λ c kv, <[ kv.1 := kv.2 ]> c) ∅ (omap kept_item items)).
Proof. unfold build_allow_lists. by rewrite build_from. Qed.

Lemma foldl_insert_lookup (kvs : list (string * string)) (c : gmap string string) k v :
  foldl (λ c kv, <[ kv.1 := kv.2 ]> c) c kvs !! k = Some v →
  (k, v) ∈ kvs ∨ c !! k = Some v.
Proof.
  revert c. induction kvs as [|[k' v'] kvs IH]; intros c; simpl; [by right|].
  intros H. apply IH in H as [H|H].
  - left. by apply list_elem_of_further.
  - destruct (decide (k' = k)) as [->|Hne].
    + rewrite lookup_insert_eq in H. injection H as ->. left. apply list_elem_of_here.
    + rewrite lookup_insert_ne in H by done. by right.
Qed.

Lemma foldl_insert_lookup_nodup (kvs : list (string * string)) (c : gmap string string) k v :
  NoDup kvs.*1 → (k, v) ∈ kvs →
  foldl (λ c kv, <[ kv.1 := kv.2 ]> c) c kvs !! k = Some v.
Proof.
  revert c. induction kvs as [|[k' v'] kvs IH]; intros c Hnd Hin; simpl.
  - by apply elem_of_nil in Hin.
  - simpl in Hnd. apply NoDup_cons in Hnd as [Hk' Hnd].
    apply elem_of_cons in Hin as [[= -> ->]|Hin].
    + clear IH. revert c. induction kvs as [|[k2 v2] kvs IH2]; intros c; simpl.
      * apply lookup_insert_eq.
      * simpl in Hk', Hnd. apply not_elem_of_cons in Hk' as [Hne Hk'].
        apply NoDup_cons in Hnd as [_ Hnd].
        rewrite insert_insert_ne by done. by apply IH2.
    + by apply IH.
Qed.

Lemma foldl_insert_dom (kvs : list (string * string)) (c : gmap string string) :
  dom (foldl (λ c kv, <[ kv.1 := kv.2 ]> c) c kvs) = list_to_set kvs.*1 ∪ dom c.
Proof.
  revert c. induction kvs as [|[k v] kvs IH]; intros c; simpl; [set_solver|].
  rewrite IH, dom_insert_L. set_solver.
Qed.

Lemma kept_item_keys items : NoDup items.*1 → NoDup (omap kept_item items).*1.
Proof.
  induction items as [|[raw info] items IH]; simpl; [constructor|].
  intros Hnd. apply NoDup_cons in Hnd as [Hraw Hnd].
  unfold kept_item at 1. simpl.
  destruct (matchedCode info) as [matched|]; [|by apply IH].
  destruct (truthy matched && status_usable (matchStatus info)); [|by apply IH].
  simpl. apply NoDup_cons. split; [|by apply IH].
  intros Hin. apply Hraw.
  apply list_elem_of_fmap in Hin as ([k v] & -> & Hin).
  apply list_elem_of_omap in Hin as ([raw' info'] & Hin' & Hk).
  unfold kept_item in Hk. simpl in Hk.
  destruct (matchedCode info'); [|done].
  destruct (_ && _); [|done]. injection Hk as <- <-.
  apply list_elem_of_fmap. by exists (raw', info').
Qed.

(** X20. The context built from a match dictionary is well formed: the
    prompt list and the valid list have the same length; the keys of the
    correction map are the prompt list; every value of the map is in the
    valid list; and, the keys of a dictionary being distinct, the map sends
    the i-th prompt entry to the i-th valid entry.  An entry is kept exactly
    when its matched code is non-empty and its status is [exact] or
    [fuzzy_io_swap]. *)
Theorem build_allow_lists_wf (items : list (string * MatchInfo)) :
  let '(allowed_raw, allowed_valid, cmap) := build_allow_lists items in
  allowed_raw = (omap kept_item items).*1
  ∧ allowed_valid = (omap kept_item items).*2
  ∧ length allowed_raw = length allowed_valid
  ∧ dom cmap = list_to_set allowed_raw
  ∧ (∀ raw v, cmap !! raw = Some v → v ∈ allowed_valid)
  ∧ (NoDup items.*1 →
     ∀ i raw v, allowed_raw !! i = Some raw → allowed_valid !! i = Some v →
                cmap !! raw = Some v).
Proof.
  rewrite build_allow_lists_eq.
  set (kvs := omap kept_item items).
  split; [done|]. split; [done|]. split; [by rewrite !length_fmap|].
  split; [rewrite foldl_insert_dom; set_solver|]. split.
  - intros raw v H. apply foldl_insert_lookup in H as [H|H]; [|done].
    apply list_elem_of_fmap. by exists (raw, v).
  - intros Hnd i raw v Hr Hv.
    apply foldl_insert_lookup_nodup; [by apply kept_item_keys|].
    rewrite list_lookup_fmap in Hr, Hv.
    destruct (kvs !! i) as [[k w]|] eqn:Hi; simplify_eq/=.
    by eapply list_elem_of_lookup_2.
Qed.

End Context.

(** ** The gatekeeper as a whole *)
Section Gate.
Import PyStr LlmModels ClientCaseMatcher Preprocessor Loader.

Lemma annotate_lookup (m : ClientCaseMatcher.t) cases (init : gmap string MatchInfo) k :
  foldl (λ (acc : gmap string MatchInfo) code, <[ code := info_of (match_ m code) ]> acc)
        init cases !! k
  = if decide (k ∈ cases) then Some (info_of (match_ m k)) else init !! k.
Proof.
  revert init. induction cases as [|c cases IH]; intros init; simpl.
  - done.
  - rewrite IH. destruct (decide (k ∈ cases)) as [Hin|Hin].
    + rewrite decide_True; [done|by apply list_elem_of_further].
    + destruct (decide (c = k)) as [->|Hne].
      * rewrite lookup_insert_eq. rewrite decide_True; [done|apply list_elem_of_here].
      * rewrite lookup_insert_ne by done. rewrite decide_False; [done|].
        intros [?|?]%elem_of_cons; congruence.
Qed.

(** The match dictionary that [process_invoice] stores. *)
Lemma process_invoice_matches matcher find_patterns text :
  client_case_matches
    (patterns_found (Preprocessor.process_invoice matcher find_patterns text))
  = match matcher with
    | Some m =>
        if truthy text then
          match find_patterns text with
          | [] => None
          | cases =>
              Some (foldl (λ (acc : gmap string MatchInfo) code,
                             <[ code := info_of (match_ m code) ]> acc) ∅ cases)
          end
        else None
    | None => None
    end.
Proof.
  unfold Preprocessor.process_invoice, annotate_client_cases.
  destruct matcher as [m|]; [|done]. simpl.
  destruct (truthy text); simpl; [|done].
  by destruct (find_patterns text).
Qed.

(** X21. With a matcher and at least one candidate, annotation stores a
    dictionary whose keys are exactly the candidates, each carrying the
    match result of that candidate; without a matcher, without text or
    without candidates no dictionary is stored. *)
Theorem annotation_covers_candidates
    (matcher : option ClientCaseMatcher.t) (find_patterns : string → list string)
    (text : string) :
  let d := Preprocessor.process_invoice matcher find_patterns text in
  (∀ m, matcher = Some m → text ≠ "" → find_patterns text ≠ [] →
        ∃ dict, client_case_matches (patterns_found d) = Some dict
                ∧ dom dict = list_to_set (find_patterns text)
                ∧ ∀ code, code ∈ find_patterns text →
                          dict !! code = Some (info_of (match_ m code)))
  ∧ (matcher = None ∨ text = "" ∨ find_patterns text = [] →
     client_case_matches (patterns_found d) = None).
Proof.
  intros d. subst d. rewrite process_invoice_matches. split.
  - intros m -> Ht Hc. apply truthy_iff in Ht as ->.
    destruct (find_patterns text) as [|c cases] eqn:Hf; [done|].
    eexists. split; [done|]. split.
    + apply set_eq. intros k. rewrite elem_of_dom, annotate_lookup, elem_of_list_to_set.
      case_decide; [naive_solver|].
      rewrite lookup_empty. split; [by intros [? ?]|done].
    + intros code Hin. rewrite annotate_lookup. by rewrite decide_True.
  - intros [->|[->|Hc]]; [done| |].
    + by destruct matcher.
    + destruct matcher; [|done]. destruct (truthy text); [|done]. by rewrite Hc.
Qed.

Lemma total_bump c st :
  (n_exact (bump c st) + n_fuzzy_io_swap (bump c st) + n_unknown (bump c st)
   + n_ambiguous_io_swap (bump c st))%nat
  = S (n_exact c + n_fuzzy_io_swap c + n_unknown c + n_ambiguous_io_swap c)%nat.
Proof. destruct st; simpl; lia. Qed.

Lemma total_foldl l c :
  let c' := foldl bump c l in
  (n_exact c' + n_fuzzy_io_swap c' + n_unknown c' + n_ambiguous_io_swap c')%nat
  = (length l + (n_exact c + n_fuzzy_io_swap c + n_unknown c + n_ambiguous_io_swap c))%nat.
Proof.
  revert c. induction l as [|st l IH]; intros c; simpl; [done|].
  rewrite IH, total_bump. lia.
Qed.

(** X22. The four counters of the verdict summary add up to the number of
    entries of the match dictionary: every match is counted once. *)
Theorem verdict_counts_total (invoice_data : UniversalInvoiceData) :
  let c := counts (_evaluate_client_case_verdict invoice_data) in
  (n_exact c + n_fuzzy_io_swap c + n_unknown c + n_ambiguous_io_swap c)%nat
  = size (default ∅ (client_case_matches (patterns_found invoice_data))).
Proof.
  unfold _evaluate_client_case_verdict.
  set (matches := default ∅ (client_case_matches (patterns_found invoice_data))).
  case_bool_decide as He; simpl.
  - rewrite He. by rewrite map_size_empty.
  - assert (Hc : counts
               (if ((0 <? n_unknown (foldl bump zero_counts (statuses matches)))
                    || (0 <? n_ambiguous_io_swap (foldl bump zero_counts (statuses matches))))%nat
                then {| verdict := reject; reason := reason_unknown;
                        counts := foldl bump zero_counts (statuses matches) |}
                else if (0 <? n_fuzzy_io_swap (foldl bump zero_counts (statuses matches)))%nat
                     then {| verdict := needs_review; reason := reason_fuzzy;
                             counts := foldl bump zero_counts (statuses matches) |}
                     else {| verdict := accept; reason := reason_exact;
                             counts := foldl bump zero_counts (statuses matches) |})
               = foldl bump zero_counts (statuses matches)).
    { by destruct (_ || _); [|destruct (0 <? _)%nat]. }
    rewrite Hc. pose proof (total_foldl (statuses matches) zero_counts) as Ht.
    simpl in Ht. rewrite Ht. unfold statuses. rewrite length_map.
    rewrite Nat.add_0_r. apply length_map_to_list.
Qed.

End Gate.

Section GateReady.
Import PyStr LlmModels ClientCaseMatcher Preprocessor Loader.

Lemma len_pos_iff s : (0 <? len s)%nat = true ↔ s ≠ "".
Proof. destruct s; [by split|]. by split. Qed.

Lemma annotated_has_status (m : ClientCaseMatcher.t) cases st :
  has_status (annotated m cases) st
  ↔ ∃ code, code ∈ cases ∧ match_status (match_ m code) = st.
Proof.
  unfold has_status, annotated. split.
  - intros (code & info & Hl & Hst). rewrite annotate_lookup in Hl.
    case_decide as Hin; [|by rewrite lookup_empty in Hl].
    injection Hl as <-. eauto.
  - intros (code & Hin & Hst). exists code, (info_of (match_ m code)).
    rewrite annotate_lookup. by rewrite decide_True.
Qed.

Lemma annotated_nonempty (m : ClientCaseMatcher.t) cases :
  annotated m cases ≠ ∅ ↔ cases ≠ [].
Proof.
  split.
  - intros H ->. by apply H.
  - intros Hc He. destruct cases as [|c cases]; [done|].
    apply (f_equal (λ d : gmap string MatchInfo, d !! c)) in He.
    unfold annotated in He. rewrite annotate_lookup, lookup_empty in He.
    rewrite decide_True in He; [done|apply list_elem_of_here].
Qed.

Lemma has_status_empty st : ¬ has_status ∅ st.
Proof. intros (code & info & Hl & _). by rewrite lookup_empty in Hl. Qed.

Lemma stored_matches_eq matcher find_patterns text :
  default ∅ (client_case_matches
               (patterns_found (Preprocessor.process_invoice matcher find_patterns text)))
  = stored_matches matcher find_patterns text.
Proof.
  rewrite process_invoice_matches. unfold stored_matches.
  destruct matcher as [m|]; [|done].
  destruct (truthy text); [|done].
  by destruct (find_patterns text).
Qed.

Lemma process_invoice_coaching matcher find_patterns text :
  is_coaching_invoice (Preprocessor.process_invoice matcher find_patterns text) = true
  ↔ text ≠ "" ∧ find_patterns text ≠ [].
Proof.
  rewrite <- truthy_iff.
  assert (is_coaching_invoice (Preprocessor.process_invoice matcher find_patterns text)
          = if truthy text
            then match find_patterns text with [] => false | _ => true end
            else false) as ->.
  { unfold Preprocessor.process_invoice, annotate_client_cases.
    destruct matcher as [m|]; destruct (truthy text);
      destruct (find_patterns text); reflexivity. }
  destruct (truthy text); destruct (find_patterns text); naive_solver.
Qed.

Lemma process_invoice_length matcher find_patterns text :
  text_length (Preprocessor.process_invoice matcher find_patterns text) = len text.
Proof.
  unfold Preprocessor.process_invoice, annotate_client_cases.
  destruct matcher as [m|]; destruct (truthy text);
    destruct (find_patterns text); reflexivity.
Qed.

Lemma verdict_not_reject_iff (invoice_data : UniversalInvoiceData) :
  let matches := default ∅ (client_case_matches (patterns_found invoice_data)) in
  verdict (_evaluate_client_case_verdict invoice_data) ≠ reject
  ↔ matches ≠ ∅ ∧ ¬ has_status matches unknown
    ∧ ¬ has_status matches ambiguous_io_swap.
Proof.
  intros matches. unfold _evaluate_client_case_verdict. fold matches.
  pose proof (counted_iff matches unknown) as Hu.
  pose proof (counted_iff matches ambiguous_io_swap) as Ha.
  cbn [count_of] in Hu, Ha.
  case_bool_decide as He; cbn [verdict]; [naive_solver|].
  destruct (0 <? n_unknown _)%nat eqn:Eu;
    destruct (0 <? n_ambiguous_io_swap _)%nat eqn:Ea; cbn [orb verdict];
    try (split; [done|]; intros (_ & Hnu & Hna); tauto).
  destruct (0 <? n_fuzzy_io_swap _)%nat; cbn [verdict];
    (split; [intros _|done]; split; [done|]; split; intros H;
     [apply Hu in H|apply Ha in H]; congruence).
Qed.

Lemma process_invoice_verdict matcher find_patterns text :
  manifest_verdict (Preprocessor.process_invoice matcher find_patterns text) ≠ reject
  ↔ stored_matches matcher find_patterns text ≠ ∅
    ∧ ¬ has_status (stored_matches matcher find_patterns text) unknown
    ∧ ¬ has_status (stored_matches matcher find_patterns text) ambiguous_io_swap.
Proof.
  rewrite <- stored_matches_eq.
  unfold manifest_verdict, Preprocessor.process_invoice.
  cbn [patterns_found client_case_summary client_case_matches].
  apply verdict_not_reject_iff.
Qed.

(** X23. The gate to the agents.  An invoice is ready for the agents exactly
    when text was extracted, the pattern search found at least one
    candidate, a matcher is loaded, and every candidate is an exact or a
    fuzzy match; an unknown or ambiguous candidate, or a missing registry,
    keeps the invoice away from the agents. *)
Theorem ready_for_llm_iff
    (matcher : option ClientCaseMatcher.t) (find_patterns : string → list string)
    (text : string) :
  ready_for_llm (Preprocessor.process_invoice matcher find_patterns text) = true
  ↔ text ≠ "" ∧ find_patterns text ≠ []
    ∧ ∃ m, matcher = Some m
           ∧ ∀ code, code ∈ find_patterns text →
                     match_status (match_ m code) = exact
                     ∨ match_status (match_ m code) = fuzzy_io_swap.
Proof.
  unfold ready_for_llm. rewrite !andb_true_iff, negb_true_iff, bool_decide_eq_false.
  rewrite process_invoice_coaching, process_invoice_length, len_pos_iff,
    process_invoice_verdict.
  unfold stored_matches. destruct matcher as [m|].
  - split.
    + intros (((Htext & Hc) & _) & Hne & Hnu & Ha). split; [done|]. split; [done|].
      exists m. split; [done|]. intros code Hin.
      apply truthy_iff in Htext. rewrite Htext in Hnu, Ha.
      rewrite annotated_has_status in Hnu, Ha.
      destruct (match_status (match_ m code)) eqn:Hst; auto.
      * destruct Ha. eauto.
      * destruct Hnu. eauto.
    + intros (Htext & Hc & m' & [= <-] & Hall).
      split; [by repeat split|]. pose proof Htext as Ht. apply truthy_iff in Ht as ->.
      rewrite !annotated_has_status, annotated_nonempty.
      split; [done|]. split.
      * intros (code & Hin & Hst). destruct (Hall code Hin); congruence.
      * intros (code & Hin & Hst). destruct (Hall code Hin); congruence.
  - split.
    + intros (_ & Hne & _). done.
    + intros (_ & _ & m & ? & _). done.
Qed.

End GateReady.

(** ** From the registry to the final record *)
Section Pipeline.
Import PyStr LlmModels ClientCaseMatcher Preprocessor Loader.

Lemma context_valid_allowed name text kvk vat number date_hint items :
  Agents.valid_allowed_cases (invoice_context name text kvk vat number date_hint items)
  = (omap kept_item items).*2.
Proof.
  unfold invoice_context. rewrite build_allow_lists_eq. reflexivity.
Qed.

(** A matched code of a result against a loaded registry is a registry
    code. *)
Lemma matched_code_registered cells raw code :
  matched_code (match_ (load_rows cells) raw) = Some code →
  code ∈ registry_of cells.
Proof.
  intros Hm.
  destruct (match_cases (load_rows cells) raw)
    as [(_ & _ & _ & H)|[(_ & Hin & _ & _ & H & _)
       |[(_ & _ & _ & _ & _ & H)|[(_ & _ & (c & Hb & _ & H) & _)|(_ & _ & _ & _ & H & _)]]]];
    rewrite Hm in H; try done.
  - injection H as ->. by apply elem_of_loaded_valid.
  - injection H as ->.
    assert (c ∈ bucket (load_rows cells) (canonical_case_number (strip raw))) as Hc
      by (rewrite Hb; apply list_elem_of_here).
    by apply elem_of_loaded_bucket in Hc as [? _].
Qed.

Lemma pipeline_allowed_registered f find_patterns text code :
  code ∈ (omap kept_item
            (match_items (Preprocessor.process_invoice (init_matcher f) find_patterns text))).*2 →
  code ∈ file_codes f.
Proof.
  intros Hin. apply list_elem_of_fmap in Hin as ([raw code'] & -> & Hin).
  apply list_elem_of_omap in Hin as ([raw' info] & Hitem & Hk).
  unfold kept_item in Hk. cbn [fst snd] in Hk.
  destruct (matchedCode info) as [matched|] eqn:Hmc; [|done].
  destruct (_ && _); [|done]. injection Hk as <- <-.
  unfold match_items in Hitem. rewrite stored_matches_eq in Hitem.
  apply elem_of_map_to_list in Hitem. unfold stored_matches in Hitem.
  destruct f as [| |cells]; cbn [init_matcher] in Hitem;
    try (by rewrite lookup_empty in Hitem).
  destruct (truthy text); [|by rewrite lookup_empty in Hitem].
  unfold annotated in Hitem. rewrite annotate_lookup in Hitem.
  case_decide; [|by rewrite lookup_empty in Hitem].
  injection Hitem as <-. cbn [info_of matchedCode] in Hmc.
  cbn [snd file_codes]. by eapply matched_code_registered.
Qed.

(** X24. Whatever the agents answer, every code in the final record of an
    invoice that went through both phases is a code of the registry: the
    validated code of each active case and each no-activity code.  With a
    missing, rejected or empty registry file the final record has no cases
    at all. *)
Theorem final_codes_are_registry_codes
    (f : IndexFile) (find_patterns : string → list string) (name text : string)
    (w : Agents.World) :
  let final := pipeline f find_patterns name text w in
  (∀ case, case ∈ clientCases final →
           ∃ code, validatedClientCaseNumber case = Some code ∧ code ∈ file_codes f)
  ∧ (∀ code, code ∈ clientCasesNoActivity final → code ∈ file_codes f)
  ∧ (file_codes f = [] → clientCases final = [] ∧ clientCasesNoActivity final = []).
Proof.
  intros final. subst final. unfold pipeline. rewrite process_invoice_eq.
  match goal with
  | |- context [Utils.enforce_allowed_client_cases ?r ?a] =>
      destruct (enforce_allowed_spec r a) as [Hactive Hidle];
      set (res := Utils.enforce_allowed_client_cases r a) in *
  end.
  rewrite context_valid_allowed in Hactive, Hidle.
  assert (Hcases : ∀ case, case ∈ clientCases res →
            ∃ code, validatedClientCaseNumber case = Some code ∧ code ∈ file_codes f).
  { intros case Hc. apply Hactive in Hc as (_ & code & Hv & Hin).
    exists code. split; [done|]. by eapply pipeline_allowed_registered. }
  assert (Hidles : ∀ code, code ∈ clientCasesNoActivity res → code ∈ file_codes f).
  { intros code Hc. apply Hidle in Hc as [_ Hin].
    by eapply pipeline_allowed_registered. }
  split; [done|]. split; [done|]. intros Hempty. split.
  - destruct (clientCases res) as [|c l]; [done|].
    destruct (Hcases c) as (code & _ & Hin); [apply list_elem_of_here|].
    rewrite Hempty in Hin. by apply elem_of_nil in Hin.
  - destruct (clientCasesNoActivity res) as [|c l]; [done|].
    pose proof (Hidles c (list_elem_of_here _ _)) as Hin.
    rewrite Hempty in Hin. by apply elem_of_nil in Hin.
Qed.

End Pipeline.

Section PipelineWitnesses.
Import PyStr LlmModels ClientCaseMatcher Preprocessor Loader.

Lemma build_allow_lists_wf_witness :
  (build_allow_lists sample_items).2 !! "JN16-121-284" = Some "JN16-I21-284".
Proof.
  pose proof (build_allow_lists_wf sample_items) as H.
  destruct (build_allow_lists sample_items) as [[r v] c].
  destruct H as (-> & -> & _ & _ & _ & H).
  apply (H ltac:(apply (bool_decide_unpack _); by vm_compute) 0%nat);
    by vm_compute.
Defined.

Lemma annotation_covers_candidates_witness :
  ∃ dict,
    client_case_matches (patterns_found (invoice_with "JN16-121-284")) = Some dict
    ∧ dom dict = list_to_set ["JN16-121-284"]
    ∧ ∀ code, code ∈ ["JN16-121-284"] →
              dict !! code = Some (info_of (match_ registry_single code)).
Proof.
  apply (proj1 (annotation_covers_candidates (Some registry_single)
                  (λ _, ["JN16-121-284"]) ("Factuur " +:+ "JN16-121-284"))
               registry_single); [reflexivity|discriminate|discriminate].
Defined.

Lemma final_codes_are_registry_codes_witness :
  ∃ code,
    validatedClientCaseNumber
      {| validatedClientCaseNumber := Some "JN16-I21-284";
         rawClientCaseNumber := Some "JN16-121-284";
         date := None; durationHours := Some (3 # 2)%Q |} = Some code
    ∧ code ∈ file_codes sample_file.
Proof.
  apply (proj1 (final_codes_are_registry_codes sample_file
                  (λ _, ["JN16-121-284"; "JN16-I21-285"]) "acme_2025_001.pdf"
                  "Acme BV factuur 2025-001 JN16-121-284 1,5 uur" sample_world)).
  vm_compute. apply list_elem_of_here.
Defined.

End PipelineWitnesses.
